(** * OpenClaw Command Center: the view-model and dispatcher logic of [app.js]

    A shallow embedding of the client-side functions of [src/app.js]:
    the values JavaScript computes become Rocq functions, the state
    store and the DOM text nodes are passed explicitly, and what a
    dispatcher does to the outside world (toasts, HTTP requests, timers)
    is the list of effects it returns.

    Conventions of the embedding:
    - a property that may be absent has type [option _]; [None] is
      JavaScript's [undefined];
    - the numbers the code computes with are integers ([Z]); timestamps
      and ages are milliseconds; a JSON number is an exact decimal;
    - strings are ASCII (case folding and trimming follow the ASCII part
      of ECMAScript);
    - an object whose key order matters is an association list in
      insertion order; an object used as a dictionary is a [gmap]. *)

From Stdlib Require Import ZArith QArith String Ascii List Lia DecimalString DecimalZ.
From Stdlib Require Import Permutation Sorted Qminmax.
From stdpp Require Import base list gmap strings sets.

Open Scope Z_scope.

(** ** JavaScript primitives *)

(** [a || b] where [a] is a number or undefined: 0 and undefined are falsy. *)
Definition num_or (a : option Z) (b : Z) : Z :=
  match a with
  | Some n => if n =? 0 then b else n
  | None => b
  end.

(** [a || b] where [a] is a string or undefined: the empty string is falsy. *)
Definition str_or (a : option string) (b : string) : string :=
  match a with
  | Some EmptyString => b
  | Some s => s
  | None => b
  end.

(** Truthiness of a boolean-valued property that may be absent. *)
Definition truthy_flag (a : option bool) : bool :=
  match a with
  | Some b => b
  | None => false
  end.

(** Truthiness of a number that may be absent. *)
Definition truthy_num (a : option Z) : bool :=
  match a with
  | Some n => negb (n =? 0)
  | None => false
  end.

(** [Number.prototype.toString] on an integer. *)
Definition toString (n : Z) : string :=
  NilEmpty.string_of_int (Z.to_int n).

(** [s.padStart(targetLength, c)] for a one-character pad string. *)
Definition padStart (s : string) (targetLength : nat) (c : ascii) : string :=
  string_of_list_ascii (replicate (targetLength - String.length s) c) +:+ s.

(** [s.split(sep)] for a one-character separator. *)
Fixpoint split (sep : ascii) (s : string) : list string :=
  match s with
  | EmptyString => [EmptyString]
  | String c s' =>
      if Ascii.eqb c sep then EmptyString :: split sep s'
      else match split sep s' with
           | hd :: tl => String c hd :: tl
           | [] => [String c EmptyString]
           end
  end.

(** [String.prototype.toLowerCase] on ASCII. *)
Definition toLowerCase_char (c : ascii) : ascii :=
  let n := nat_of_ascii c in
  if ((65 <=? n) && (n <=? 90))%nat then ascii_of_nat (n + 32) else c.

Fixpoint toLowerCase (s : string) : string :=
  match s with
  | EmptyString => EmptyString
  | String c s' => String (toLowerCase_char c) (toLowerCase s')
  end.

(** [s.includes(q)]: [q] occurs in [s] as a contiguous substring. *)
Fixpoint includes (s q : string) : bool :=
  if String.prefix q s then true
  else match s with
       | EmptyString => false
       | String _ s' => includes s' q
       end.

(** ECMAScript white space and line terminators within ASCII:
    TAB, LF, VT, FF, CR and SPACE. *)
Definition is_js_space (c : ascii) : bool :=
  let n := nat_of_ascii c in
  ((9 <=? n) && (n <=? 13) || (n =? 32))%nat.

Fixpoint trimStart (s : string) : string :=
  match s with
  | EmptyString => EmptyString
  | String c s' => if is_js_space c then trimStart s' else s
  end.

Fixpoint trimEnd (s : string) : string :=
  match s with
  | EmptyString => EmptyString
  | String c s' =>
      match trimEnd s' with
      | EmptyString => if is_js_space c then EmptyString else String c EmptyString
      | t => String c t
      end
  end.

Definition trim (s : string) : string := trimEnd (trimStart s).

(** [Array.prototype.sort(cmp)]: the sort is stable (ES2019), and an
    element [a] stays before [b] unless [cmp a b > 0].  Insertion from
    the right end realises exactly that order. *)
Fixpoint sort_insert {A} (cmp : A -> A -> Z) (x : A) (l : list A) : list A :=
  match l with
  | [] => [x]
  | y :: l' => if cmp x y <=? 0 then x :: y :: l' else y :: sort_insert cmp x l'
  end.

Fixpoint sort {A} (cmp : A -> A -> Z) (l : list A) : list A :=
  match l with
  | [] => []
  | x :: l' => sort_insert cmp x (sort cmp l')
  end.

(** [arr.slice(0, n)]. *)
Definition slice0 {A} (n : nat) (l : list A) : list A := take n l.

(** ** Data model *)

(** [CONFIG]: [scheduleHour] is reassigned at run time by the settings
    code, so the configuration is passed to the functions that read it. *)
Record Config := {
  openclawUrl : string;
  n8nUrl : string;
  refreshInterval : Z;
  scheduleHour : Z;
}.

Definition CONFIG : Config := {|
  openclawUrl := "/proxy/openclaw";
  n8nUrl := "/proxy/n8n";
  refreshInterval := 30000;
  scheduleHour := 23;
|}.

Module Agent.
Record t := {
  id : string;
  name : string;
  emoji : string;
  model : string;
  workspace : string;
}.
End Agent.

Definition AGENTS : list Agent.t := [
  {| Agent.id := "main"; Agent.name := "Main Agent"; Agent.emoji := "🥳";
     Agent.model := "claude-opus-4-5-thinking";
     Agent.workspace := "/home/protik/.openclaw/workspace" |};
  {| Agent.id := "blog-publisher"; Agent.name := "Blog Publisher"; Agent.emoji := "📝";
     Agent.model := "claude-sonnet-4-5";
     Agent.workspace := "/workspace/agents/blog-publisher" |};
  {| Agent.id := "research-scraper"; Agent.name := "Research Scraper"; Agent.emoji := "🔍";
     Agent.model := "llama-3.3-70b";
     Agent.workspace := "/workspace/agents/research-scraper" |};
  {| Agent.id := "inbox-checker"; Agent.name := "Inbox Checker"; Agent.emoji := "📬";
     Agent.model := "gpt-5-mini";
     Agent.workspace := "/workspace/agents/inbox-checker" |}
].

(** A session as the gateway lists it.  Every property may be missing. *)
Record Session := {
  key : option string;
  agentId : option string;
  updatedAt : option Z;
  ageMs : option Z;
  totalTokens : option Z;
  active : option bool;
}.

Module CronJob.
Record t := {
  id : string;
  name : option string;
  enabled : option bool;
  nextRunAtMs : option Z;
}.
End CronJob.

Module Workflow.
Record t := {
  id : string;
  name : string;
  active : bool;
}.
End Workflow.

(** An entry of the activity feed, synthesised from a session. *)
Record ActivityItem := {
  type : string;
  agent : string;
  content : string;
  timestamp : Z;
}.

(** The state store [state]. *)
Record State := {
  sessions : list Session;
  cronJobs : list CronJob.t;
  n8nWorkflows : list Workflow.t;
  activity : list ActivityItem;
  gatewayOnline : bool;
  n8nOnline : bool;
}.

(** The text of the DOM elements the functions write, by element id. *)
Abbreviation DOM := (gmap string string).


(** ** Local time

    A [Date] is its time value: milliseconds since the epoch.  Local
    time is the time value shifted by a fixed zone offset [tz] (for IST,
    the zone [CONFIG] names, 19800000 ms).  Zones whose offset changes
    during the year are outside the model. *)
Section LocalTime.
Variable tz : Z.

Definition msPerDay : Z := 86400000.

Definition timeWithinDay (t : Z) : Z := (t + tz) mod msPerDay.

Definition getHours (t : Z) : Z := timeWithinDay t / 3600000.
Definition getMinutes (t : Z) : Z := (timeWithinDay t / 60000) mod 60.
Definition getSeconds (t : Z) : Z := (timeWithinDay t / 1000) mod 60.
Definition getMilliseconds (t : Z) : Z := timeWithinDay t mod 1000.

(** [d.setHours(h, m, s, ms)]: same local day, new time of day. *)
Definition setHours (t h m s ms : Z) : Z :=
  t - timeWithinDay t + (h * 3600000 + m * 60000 + s * 1000 + ms).

(** [d.setDate(d.getDate() + 1)]: same time of day, next local day. *)
Definition setDate_next (t : Z) : Z := t + msPerDay.

(** ** [updateScheduleCountdown]

    [now] is the clock reading; the two [new Date()] of the function are
    taken at the same millisecond. *)
Definition scheduleTime (cfg : Config) (now : Z) : Z :=
  let scheduleTime := setHours now (scheduleHour cfg) 0 0 0 in
  if now >? scheduleTime then setDate_next scheduleTime else scheduleTime.

(** [Math.floor(a / b)] is [Z.div], [a % b] is [Z.rem]. *)
Definition countdown (cfg : Config) (now : Z) : string :=
  let diff := scheduleTime cfg now - now in
  let hours := diff / (1000 * 60 * 60) in
  let minutes := Z.rem diff (1000 * 60 * 60) / (1000 * 60) in
  let seconds := Z.rem diff (1000 * 60) / 1000 in
  padStart (toString hours) 2 "0" +:+ ":" +:+
  padStart (toString minutes) 2 "0" +:+ ":" +:+
  padStart (toString seconds) 2 "0".

(** The countdown goes to two elements.  The third write of the
    function, the locale-formatted date of [schedule-next-date], is not
    modelled. *)
Definition updateScheduleCountdown (cfg : Config) (now : Z) (dom : DOM) : DOM :=
  <["schedule-countdown" := countdown cfg now]>
    (<["stat-schedule" := countdown cfg now]> dom).

(** ** [updateStats] *)

(** [n || m] on two array lengths. *)
Definition length_or (n m : nat) : nat :=
  match n with
  | O => m
  | _ => n
  end.

Definition updateStats (cfg : Config) (st : State) (now : Z) (dom : DOM) : DOM :=
  let dom := <["stat-agents" := toString (Z.of_nat (length AGENTS))]> dom in
  let dom := <["stat-sessions" :=
                 toString (Z.of_nat
                   (length_or
                      (length (List.filter (fun s => truthy_flag (active s)) (sessions st)))
                      (length (sessions st))))]> dom in
  let dom := <["stat-cron" :=
                 toString (Z.of_nat
                   (length (List.filter (fun j => truthy_flag (CronJob.enabled j))
                                        (cronJobs st))))]> dom in
  updateScheduleCountdown cfg now dom.

(** *** The countdown as the specification words it *)

(** [t] is an occurrence of the target: local hour [H], minute, second
    and millisecond zero. *)
Definition is_target (H t : Z) : Prop :=
  getHours t = H /\ getMinutes t = 0 /\ getSeconds t = 0 /\ getMilliseconds t = 0.

(** [t'] is the next occurrence of the target at or after [now]. *)
Definition next_target (H now t' : Z) : Prop :=
  now <= t' /\ is_target H t' /\
  forall u, now <= u -> is_target H u -> t' <= u.

End LocalTime.

(** A field of the rendering: two digits, a leading zero below ten. *)
Definition two_digits (n : Z) : string :=
  if n <? 10 then "0" +:+ toString n else toString n.

(** A duration in milliseconds as zero-padded HH:MM:SS. *)
Definition hhmmss (delta : Z) : string :=
  two_digits (delta / 3600000) +:+ ":" +:+
  two_digits ((delta / 60000) mod 60) +:+ ":" +:+
  two_digits ((delta / 1000) mod 60).

(** ** [loadActivity]: the feed synthesised from the fetched sessions

    [clock i] is what [Date.now()] returns in the callback of [map] for
    the element of index [i].  Time values stay within the range of
    [Date]. *)
Definition activity_of_session (clock : nat -> Z) (i : nat) (session : Session)
  : ActivityItem :=
  {| type := "session";
     agent := str_or (agentId session) "main";
     content := "Session " +:+ default "undefined" (key session) +:+ " - " +:+
                toString (num_or (totalTokens session) 0) +:+ " tokens";
     timestamp := num_or (updatedAt session) (clock i) |}.

Definition synthesize_activity (clock : nat -> Z) (fetched : list Session)
  : list ActivityItem :=
  let activities := imap (activity_of_session clock) fetched in
  slice0 20 (sort (fun a b => timestamp b - timestamp a) activities).

(** *** The statistics and the feed as the specification words them *)

(** The sessions whose [active] flag is truthy, counted one by one. *)
Fixpoint active_count (l : list Session) : nat :=
  match l with
  | [] => 0
  | s :: l' => if truthy_flag (active s) then S (active_count l') else active_count l'
  end.

(** No entry is followed by one with an equal or greater timestamp. *)
Definition strictly_descending (feed : list ActivityItem) : Prop :=
  forall i a b, feed !! i = Some a -> feed !! S i = Some b ->
    timestamp b < timestamp a.

(** No entry is followed by one with a greater timestamp. *)
Definition descending (feed : list ActivityItem) : Prop :=
  forall i a b, feed !! i = Some a -> feed !! S i = Some b ->
    timestamp b <= timestamp a.

(** Two sessions refreshed in the same millisecond. *)
Definition tied_sessions : list Session := [
  {| key := Some "agent:main:main"; agentId := Some "main";
     updatedAt := Some 1700000000000; ageMs := Some 1000;
     totalTokens := Some 10; active := None |};
  {| key := Some "agent:blog-publisher:cron"; agentId := Some "blog-publisher";
     updatedAt := Some 1700000000000; ageMs := Some 1000;
     totalTokens := Some 20; active := None |}
].

(** ** [renderAgents] *)

(** [session.key?.split(':')[1] || 'main'] *)
Definition key_agentId (session : Session) : string :=
  str_or (key session ≫= fun k => split ":" k !! 1%nat) "main".

(** [activeAgentIds] is a [Set], [agentLastActivity] an object used as
    a dictionary; a key bound to [undefined] reads like a missing key. *)
Record AgentScan := {
  activeAgentIds : gset string;
  agentLastActivity : gmap string Z;
}.

(** [obj[k] = v] where [v] may be undefined. *)
Definition assign (obj : gmap string Z) (k : string) (v : option Z) : gmap string Z :=
  match v with
  | Some n => <[k := n]> obj
  | None => delete k obj
  end.

(** [a > b] on numbers that may be undefined: false when either is. *)
Definition num_gt (a b : option Z) : bool :=
  match a, b with
  | Some x, Some y => y <? x
  | _, _ => false
  end.

(** The body of [state.sessions.forEach]. *)
Definition scan_session (acc : AgentScan) (session : Session) : AgentScan :=
  let ageMinutes : Q := (inject_Z (num_or (ageMs session) 0) / 60000)%Q in
  let agentId := key_agentId session in
  let ids := if Qlt_le_dec ageMinutes 5
             then {[agentId]} ∪ activeAgentIds acc
             else activeAgentIds acc in
  let last := agentLastActivity acc in
  let last' := if negb (truthy_num (last !! agentId))
                  || num_gt (updatedAt session) (last !! agentId)
               then assign last agentId (updatedAt session)
               else last in
  {| activeAgentIds := ids; agentLastActivity := last' |}.

Definition scan_sessions (l : list Session) : AgentScan :=
  fold_left scan_session l {| activeAgentIds := ∅; agentLastActivity := ∅ |}.

(** What a card of the agents grid shows: the status, and the time
    handed to [formatTime] ([None] where the card reads Never). *)
Record AgentCard := {
  card_agent : Agent.t;
  isActive : bool;
  lastActivity : option Z;
}.

Definition renderAgents (st : State) : list AgentCard :=
  let scan := scan_sessions (sessions st) in
  map (fun agent =>
         {| card_agent := agent;
            isActive := bool_decide (Agent.id agent ∈ activeAgentIds scan);
            lastActivity :=
              let lastActivity := agentLastActivity scan !! Agent.id agent in
              if truthy_num lastActivity then lastActivity else None |})
      AGENTS.

(** The derivation [viewAgentDetails] uses to pick an agent's sessions:
    [s.agentId || (s.key && s.key.split(':')[1]) || 'main']. *)
Definition sAgent (s : Session) : string :=
  str_or (agentId s) (key_agentId s).

Definition viewAgentDetails_sessions (st : State) (agentId : string) : list Session :=
  List.filter (fun s => bool_decide (sAgent s = agentId)) (sessions st).

(** A session that names its agent and whose key is an opaque id. *)
Definition named_session : Session :=
  {| key := Some "session-7f3a"; agentId := Some "blog-publisher";
     updatedAt := Some 1700000000000; ageMs := Some 60000;
     totalTokens := Some 1200; active := None |}.

(** ** JSON

    A number is a decimal [m * 10 ^ e]: what the text denotes exactly,
    before rounding to a double.  Strings stay within ASCII; an escape
    above it is kept as its UTF-8 bytes. *)
#[local] Unset Elimination Schemes.
Inductive json :=
| JNull
| JBool (b : bool)
| JNum (m e : Z)
| JStr (s : string)
| JArr (items : list json)
| JObj (fields : list (string * json)).
#[local] Set Elimination Schemes.

Definition dquote : ascii := "034".
Definition backslash : ascii := "092".

(** [obj[k] = v] on an object in insertion order. *)
Fixpoint obj_set {V} (obj : list (string * V)) (k : string) (v : V)
  : list (string * V) :=
  match obj with
  | [] => [(k, v)]
  | (k', v') :: obj' =>
      if String.eqb k' k then (k', v) :: obj' else (k', v') :: obj_set obj' k v
  end.

(** *** [JSON.stringify] *)

Definition hex_digit (n : nat) : ascii :=
  List.nth n (list_ascii_of_string "0123456789abcdef") "0"%char.

Definition escape_char (c : ascii) : string :=
  let n := nat_of_ascii c in
  if Ascii.eqb c dquote then String backslash (String dquote EmptyString)
  else if Ascii.eqb c backslash then String backslash (String backslash EmptyString)
  else if (n =? 8)%nat then String backslash "b"
  else if (n =? 9)%nat then String backslash "t"
  else if (n =? 10)%nat then String backslash "n"
  else if (n =? 12)%nat then String backslash "f"
  else if (n =? 13)%nat then String backslash "r"
  else if (n <? 32)%nat then
    String backslash
      (String "u" (String "0" (String "0"
         (String (hex_digit (n / 16)) (String (hex_digit (n mod 16)) EmptyString)))))
  else String c EmptyString.

Fixpoint escape (s : string) : string :=
  match s with
  | EmptyString => EmptyString
  | String c s' => escape_char c +:+ escape s'
  end.

Definition quote (s : string) : string :=
  String dquote (escape s) +:+ String dquote EmptyString.

Fixpoint strip_trailing_zeros (s : string) : string :=
  match s with
  | EmptyString => EmptyString
  | String c s' =>
      match strip_trailing_zeros s' with
      | EmptyString => if Ascii.eqb c "0" then EmptyString else String c EmptyString
      | t => String c t
      end
  end.

(** A number in plain decimal notation, as [Number.prototype.toString]
    prints one of at most 15 significant digits and of magnitude between
    1e-6 and 1e21. *)
Definition number_to_string (m e : Z) : string :=
  if m =? 0 then "0"
  else if 0 <=? e then toString (m * 10 ^ e)
  else
    let scale := 10 ^ (- e) in
    let int := toString (Z.abs m / scale) in
    let frac := strip_trailing_zeros
                  (padStart (toString (Z.abs m mod scale)) (Z.to_nat (- e)) "0") in
    (if m <? 0 then "-" else "") +:+ int +:+
    (match frac with
     | EmptyString => ""
     | _ => "." +:+ frac
     end).

Definition join (sep : string) (parts : list string) : string :=
  match parts with
  | [] => ""
  | p :: ps => fold_left (fun acc q => acc +:+ sep +:+ q) ps p
  end.

Fixpoint JSON_stringify (j : json) : string :=
  match j with
  | JNull => "null"
  | JBool true => "true"
  | JBool false => "false"
  | JNum m e => number_to_string m e
  | JStr s => quote s
  | JArr items => "[" +:+ join "," (map JSON_stringify items) +:+ "]"
  | JObj fields =>
      "{" +:+
      join "," (map (fun kv => match kv with
                               | (k, v) => quote k +:+ ":" +:+ JSON_stringify v
                               end) fields)
      +:+ "}"
  end.

(** *** [JSON.parse] *)

Definition is_json_ws (c : ascii) : bool :=
  let n := nat_of_ascii c in
  ((n =? 32) || (n =? 9) || (n =? 10) || (n =? 13))%nat.

Fixpoint skip_ws (s : string) : string :=
  match s with
  | EmptyString => EmptyString
  | String c s' => if is_json_ws c then skip_ws s' else s
  end.

Definition digit_value (c : ascii) : option Z :=
  let n := nat_of_ascii c in
  if ((48 <=? n) && (n <=? 57))%nat then Some (Z.of_nat (n - 48)) else None.

Definition hex_value (c : ascii) : option Z :=
  let n := nat_of_ascii c in
  if ((48 <=? n) && (n <=? 57))%nat then Some (Z.of_nat (n - 48))
  else if ((97 <=? n) && (n <=? 102))%nat then Some (Z.of_nat (n - 87))
  else if ((65 <=? n) && (n <=? 70))%nat then Some (Z.of_nat (n - 55))
  else None.

Definition byte (n : Z) : ascii := ascii_of_nat (Z.to_nat n).

(** The UTF-8 bytes of a UTF-16 code unit. *)
Definition utf8 (u : Z) : string :=
  if u <? 128 then String (byte u) EmptyString
  else if u <? 2048 then
    String (byte (192 + u / 64)) (String (byte (128 + u mod 64)) EmptyString)
  else
    String (byte (224 + u / 4096))
      (String (byte (128 + (u / 64) mod 64))
         (String (byte (128 + u mod 64)) EmptyString)).

(** The character an escape letter stands for. *)
Definition unescape (c : ascii) : option ascii :=
  let n := nat_of_ascii c in
  if Ascii.eqb c dquote then Some dquote
  else if Ascii.eqb c backslash then Some backslash
  else if Ascii.eqb c "/" then Some "/"%char
  else if Ascii.eqb c "b" then Some (ascii_of_nat 8)
  else if Ascii.eqb c "f" then Some (ascii_of_nat 12)
  else if Ascii.eqb c "n" then Some (ascii_of_nat 10)
  else if Ascii.eqb c "r" then Some (ascii_of_nat 13)
  else if Ascii.eqb c "t" then Some (ascii_of_nat 9)
  else None.

(** The characters of a string literal after its opening quote, and
    what follows the closing quote. *)
Fixpoint parse_chars (s : string) : option (string * string) :=
  match s with
  | EmptyString => None
  | String c rest =>
      if Ascii.eqb c dquote then Some (EmptyString, rest)
      else if Ascii.eqb c backslash then
        match rest with
        | EmptyString => None
        | String x rest1 =>
            if Ascii.eqb x "u" then
              match rest1 with
              | String h1 (String h2 (String h3 (String h4 rest2))) =>
                  match hex_value h1, hex_value h2, hex_value h3, hex_value h4 with
                  | Some a, Some b, Some c', Some d =>
                      match parse_chars rest2 with
                      | Some (t, r) =>
                          Some (utf8 (((a * 16 + b) * 16 + c') * 16 + d) +:+ t, r)
                      | None => None
                      end
                  | _, _, _, _ => None
                  end
              | _ => None
              end
            else
              match unescape x with
              | Some y =>
                  match parse_chars rest1 with
                  | Some (t, r) => Some (String y t, r)
                  | None => None
                  end
              | None => None
              end
        end
      else if (nat_of_ascii c <? 32)%nat then None
      else
        match parse_chars rest with
        | Some (t, r) => Some (String c t, r)
        | None => None
        end
  end.

(** A run of decimal digits: its value from [acc], how many there
    were, and the rest. *)
Fixpoint parse_digits (s : string) (acc : Z) (n : nat) : Z * nat * string :=
  match s with
  | EmptyString => (acc, n, s)
  | String c rest =>
      match digit_value c with
      | Some d => parse_digits rest (acc * 10 + d) (S n)
      | None => (acc, n, s)
      end
  end.

(** The integer part: a single 0, or digits that do not start with 0. *)
Definition parse_int (s : string) : option (Z * string) :=
  match s with
  | EmptyString => None
  | String c rest =>
      if Ascii.eqb c "0" then Some (0, rest)
      else match parse_digits s 0 0 with
           | (_, O, _) => None
           | (v, _, r) => Some (v, r)
           end
  end.

(** The fraction: nothing, or a point and at least one digit.  The value
    is that of integer and fraction digits read together. *)
Definition parse_frac (int : Z) (s : string) : option (Z * nat * string) :=
  match s with
  | String c rest =>
      if Ascii.eqb c "." then
        match parse_digits rest int 0 with
        | (_, O, _) => None
        | r => Some r
        end
      else Some (int, O, s)
  | EmptyString => Some (int, O, s)
  end.

(** The exponent: nothing, or e or E, a sign if any, and at least one digit. *)
Definition parse_exp (s : string) : option (Z * string) :=
  match s with
  | String c rest =>
      if Ascii.eqb c "e" || Ascii.eqb c "E" then
        let '(neg, rest1) :=
          match rest with
          | String sg r =>
              if Ascii.eqb sg "-" then (true, r)
              else if Ascii.eqb sg "+" then (false, r)
              else (false, rest)
          | EmptyString => (false, rest)
          end in
        match parse_digits rest1 0 0 with
        | (_, O, _) => None
        | (v, _, r) => Some (if neg then - v else v, r)
        end
      else Some (0, s)
  | EmptyString => Some (0, s)
  end.

Definition parse_number (s : string) : option (json * string) :=
  let '(neg, s1) :=
    match s with
    | String c rest => if Ascii.eqb c "-" then (true, rest) else (false, s)
    | EmptyString => (false, s)
    end in
  match parse_int s1 with
  | Some (int, s2) =>
      match parse_frac int s2 with
      | Some (digits, nfrac, s3) =>
          match parse_exp s3 with
          | Some (ex, s4) =>
              Some (JNum (if neg then - digits else digits) (ex - Z.of_nat nfrac), s4)
          | None => None
          end
      | None => None
      end
  | None => None
  end.

(** [s] after the literal [lit], when [s] starts with it. *)
Fixpoint expect (lit s : string) : option string :=
  match lit with
  | EmptyString => Some s
  | String c lit' =>
      match s with
      | String d s' => if Ascii.eqb c d then expect lit' s' else None
      | EmptyString => None
      end
  end.

(** Recursive descent; every call spends one unit of [fuel]. *)
Fixpoint parse_value (fuel : nat) (s : string) : option (json * string) :=
  match fuel with
  | O => None
  | S fuel =>
      match s with
      | EmptyString => None
      | String c rest =>
          if Ascii.eqb c "{" then
            match skip_ws rest with
            | EmptyString => None
            | String c1 rest1 =>
                if Ascii.eqb c1 "}" then Some (JObj [], rest1)
                else match parse_members fuel (String c1 rest1) with
                     | Some (ms, r) =>
                         Some (JObj (fold_left (fun o kv => obj_set o (fst kv) (snd kv))
                                               ms []), r)
                     | None => None
                     end
            end
          else if Ascii.eqb c "[" then
            match skip_ws rest with
            | EmptyString => None
            | String c1 rest1 =>
                if Ascii.eqb c1 "]" then Some (JArr [], rest1)
                else match parse_elements fuel (String c1 rest1) with
                     | Some (vs, r) => Some (JArr vs, r)
                     | None => None
                     end
            end
          else if Ascii.eqb c dquote then
            match parse_chars rest with
            | Some (str, r) => Some (JStr str, r)
            | None => None
            end
          else if Ascii.eqb c "t" then
            match expect "rue" rest with
            | Some r => Some (JBool true, r)
            | None => None
            end
          else if Ascii.eqb c "f" then
            match expect "alse" rest with
            | Some r => Some (JBool false, r)
            | None => None
            end
          else if Ascii.eqb c "n" then
            match expect "ull" rest with
            | Some r => Some (JNull, r)
            | None => None
            end
          else parse_number s
      end
  end
with parse_elements (fuel : nat) (s : string) : option (list json * string) :=
  match fuel with
  | O => None
  | S fuel =>
      match parse_value fuel (skip_ws s) with
      | Some (v, rest) =>
          match skip_ws rest with
          | EmptyString => None
          | String c rest1 =>
              if Ascii.eqb c "," then
                match parse_elements fuel rest1 with
                | Some (vs, r) => Some (v :: vs, r)
                | None => None
                end
              else if Ascii.eqb c "]" then Some ([v], rest1)
              else None
          end
      | None => None
      end
  end
with parse_members (fuel : nat) (s : string)
  : option (list (string * json) * string) :=
  match fuel with
  | O => None
  | S fuel =>
      match skip_ws s with
      | EmptyString => None
      | String q rest =>
          if Ascii.eqb q dquote then
            match parse_chars rest with
            | Some (k, rest1) =>
                match skip_ws rest1 with
                | EmptyString => None
                | String c rest2 =>
                    if Ascii.eqb c ":" then
                      match parse_value fuel (skip_ws rest2) with
                      | Some (v, rest3) =>
                          match skip_ws rest3 with
                          | EmptyString => None
                          | String c' rest4 =>
                              if Ascii.eqb c' "," then
                                match parse_members fuel rest4 with
                                | Some (ms, r) => Some ((k, v) :: ms, r)
                                | None => None
                                end
                              else if Ascii.eqb c' "}" then Some ([(k, v)], rest4)
                              else None
                          end
                      | None => None
                      end
                    else None
                end
            | None => None
            end
          else None
      end
  end.

(** [JSON.parse(text)]: [None] where it throws [SyntaxError].  A call
    of the descent consumes a character of the text before the next one
    is made, at most two calls apart, so twice the length is fuel enough. *)
Definition JSON_parse (text : string) : option json :=
  match parse_value (2 * String.length text + 2) (skip_ws text) with
  | Some (v, rest) =>
      match skip_ws rest with
      | EmptyString => Some v
      | _ => None
      end
  | None => None
  end.

(** *** Agent activity as the specification words it *)

(** The greater of two timestamps, either of which may be missing. *)
Definition opt_max (a b : option Z) : option Z :=
  match a, b with
  | Some x, Some y => Some (Z.max x y)
  | Some x, None => Some x
  | None, _ => b
  end.

(** The greatest [updatedAt] over the sessions of agent [id], where
    [agent_of] says whose a session is; [None] when it has no session. *)
Fixpoint max_updatedAt (agent_of : Session -> string) (id : string)
  (l : list Session) : option Z :=
  match l with
  | [] => None
  | s :: l' =>
      if String.eqb (agent_of s) id
      then opt_max (updatedAt s) (max_updatedAt agent_of id l')
      else max_updatedAt agent_of id l'
  end.

(** ** Usage: [renderUsage] and [renderUsageChart] *)

Record ModelInfo := {
  requests : option Z;
  last : option Z;
}.

Record ProviderInfo := {
  models : option (list (string * ModelInfo));
}.

(** A value of the summary object: a provider's record, or the number
    under the key [total_requests]. *)
Inductive SummaryEntry :=
| ProviderEntry (p : ProviderInfo)
| CounterEntry (n : Z).

(** An object in insertion order; its keys are distinct. *)
Abbreviation Summary := (list (string * SummaryEntry)).

(** [obj[k]] *)
Fixpoint obj_get {V} (obj : list (string * V)) (k : string) : option V :=
  match obj with
  | [] => None
  | (k', v) :: obj' => if String.eqb k' k then Some v else obj_get obj' k
  end.

(** [summary[p]?.models] *)
Definition summary_models (summary : Summary) (p : string)
  : option (list (string * ModelInfo)) :=
  match obj_get summary p with
  | Some (ProviderEntry info) => models info
  | _ => None
  end.

(** The provider list of [renderUsage]; [hideInternal] is the [checked]
    property of the toggle, undefined when the element is missing. *)
Definition usage_providers (hideInternal : option bool) (summary : Summary)
  : list string :=
  let providers :=
    List.filter (fun k => negb (String.eqb k "total_requests")) (map fst summary) in
  if truthy_flag hideInternal
  then List.filter (fun p => negb (String.eqb p "Gateway")) providers
  else providers.

(** The inner loop of [renderUsageChart]: [total += m.requests || 0]. *)
Definition provider_total (summary : Summary) (p : string) : Z :=
  match summary_models summary p with
  | Some ms => fold_left (fun total m => total + num_or (requests (snd m)) 0) ms 0
  | None => 0
  end.

(** The outer loop of [renderUsageChart]: the totals by provider and the
    scaling maximum, which starts at 1. *)
Definition providerTotals (summary : Summary) (providers : list string)
  : gmap string Z :=
  fold_left (fun totals p => <[p := provider_total summary p]> totals) providers ∅.

Definition chart_max (summary : Summary) (providers : list string) : Z :=
  fold_left (fun max p => if provider_total summary p >? max
                          then provider_total summary p else max)
            providers 1.

(** The counters [renderUsage] writes.  The first of its three counters,
    [usage-total-requests], is formatted by the locale and is not
    modelled. *)
Definition renderUsage_counts (hideInternal : option bool) (summary : Summary)
  (dom : DOM) : DOM :=
  let providers := usage_providers hideInternal summary in
  let totalModels :=
    fold_left (fun totalModels p =>
                 match summary_models summary p with
                 | Some ms => (totalModels + length ms)%nat
                 | None => totalModels
                 end) providers 0%nat in
  <["usage-models-count" := toString (Z.of_nat totalModels)]>
    (<["usage-providers-count" := toString (Z.of_nat (length providers))]> dom).

(** *** The totals as the specification words them *)

(** The sum of the [requests] fields of a provider's models. *)
Fixpoint requests_sum (ms : list (string * ModelInfo)) : Z :=
  match ms with
  | [] => 0
  | m :: ms' => default 0 (requests (snd m)) + requests_sum ms'
  end.

(** The summary of the specification's example. *)
Definition example_summary : Summary := [
  ("Gateway",
   ProviderEntry {| models := Some [("a", {| requests := Some 5; last := None |})] |});
  ("OpenAI",
   ProviderEntry {| models := Some [("b", {| requests := Some 10; last := None |})] |});
  ("total_requests", CounterEntry 15)
].

(** ** Usage events: [filterUsageEvents] *)

(** The global [usageData]: the last body fetched from [/proxy/usage].
    Either key may be missing. *)
Record UsageData := {
  summary : option Summary;
  events : option (list json);
}.

(** [j[k]]: undefined unless [j] is an object with that key. *)
Definition get_field (j : json) (k : string) : option json :=
  match j with
  | JObj fields => obj_get fields k
  | _ => None
  end.

(** [e.provider === provider] *)
Definition provider_is (provider : string) (e : json) : bool :=
  match get_field e "provider" with
  | Some (JStr p) => String.eqb p provider
  | _ => false
  end.

(** The value assigned to [filteredEvents]; [search] and [provider] are
    the values of the search box and of the provider drop-down. *)
Definition filterUsageEvents (usageData : UsageData) (search provider : string)
  : list json :=
  let query := toLowerCase (str_or (Some search) "") in
  let events := default [] (events usageData) in
  let events :=
    if negb (String.eqb provider "all")
    then List.filter (provider_is provider) events
    else events in
  let events :=
    match query with
    | EmptyString => events
    | _ => List.filter (fun e => includes (toLowerCase (JSON_stringify e)) query) events
    end in
  events.

(** [renderUsageEvents]: the events shown, most recent first. *)
Definition shown_events (filteredEvents : list json) : list json :=
  slice0 100 (reverse filteredEvents).

(** *** The filter as the specification words it *)

(** The event's [provider] field, when it holds a string. *)
Definition event_provider (e : json) : option string :=
  match get_field e "provider" with
  | Some (JStr p) => Some p
  | _ => None
  end.

(** Equal up to the case of letters. *)
Definition eq_ignoring_case (a b : string) : Prop :=
  toLowerCase a = toLowerCase b.

(** [q] occurs in [s] up to the case of letters. *)
Definition contains_ignoring_case (s q : string) : Prop :=
  exists pre mid post, s = pre +:+ mid +:+ post /\ eq_ignoring_case mid q.

(** Three logged calls. *)
Definition example_events : list json := [
  JObj [("timestamp", JNum 1700000000 0); ("provider", JStr "OpenAI");
        ("model", JStr "gpt-5-mini"); ("duration_s", JNum 125 (-2));
        ("error", JStr "Rate limit ERROR")];
  JObj [("timestamp", JNum 1700000060 0); ("provider", JStr "Gateway");
        ("model", JStr "sessions"); ("error", JStr "error: timeout")];
  JObj [("timestamp", JNum 1700000120 0); ("provider", JStr "OpenAI");
        ("model", JStr "gpt-5-mini"); ("duration_s", JNum 2 0)]
].

(** ** Effects and the network

    What a dispatcher does to the outside world, in the order it does it. *)
Inductive Effect :=
| showToast (message type : string)
| fetch (url : string) (method body : option string)
| console_error (message : string)
| hideSpawnModal
| setTimeout_loadSessions (delay : Z)
| call_loadSessions
| call_refreshAll.

(** What a [fetch] followed by [response.json()] comes to.  [status_ok]
    is [response.ok]; no function of the file reads it.  [data] is [None]
    for a body that parses to a falsy value ([null], [false], [0] or the
    empty string). *)
Inductive FetchOutcome (R : Type) :=
| NetworkError
| NotJson (status_ok : bool)
| Json (status_ok : bool) (data : option R).
Arguments NetworkError {R}.
Arguments NotJson {R} status_ok.
Arguments Json {R} status_ok data.

(** The [options] argument of the fetch helpers. *)
Record Options := {
  method : option string;
  body : option string;
}.

(** [fetchOpenClaw]: the request goes to [CONFIG.openclawUrl] followed
    by [endpoint]; the result is null ([None]) when [fetch] or
    [response.json()] throws. *)
Definition fetchOpenClaw {R} (cfg : Config) (endpoint : string) (options : Options)
  (net : FetchOutcome R) : list Effect * option R :=
  let request := fetch (openclawUrl cfg +:+ endpoint) (method options) (body options) in
  match net with
  | Json _ data => ([request], data)
  | _ => ([request; console_error "OpenClaw API error:"], None)
  end.

(** The body of an answer to a dispatcher, as far as the file reads
    it: the properties [ok] and [error]. *)
Module Result.
Record t := {
  ok : option bool;
  error : option string;
}.
End Result.

(** Truthiness of a string that may be absent. *)
Definition truthy_str (a : option string) : bool :=
  match a with
  | Some EmptyString => false
  | Some _ => true
  | None => false
  end.

Definition getAgentName (agentId : string) : string :=
  match List.find (fun a => String.eqb (Agent.id a) agentId) AGENTS with
  | Some agent => str_or (Some (Agent.name agent)) agentId
  | None => agentId
  end.

(** ** [spawnAgent]

    [agentId] and [task] are the values of the two inputs of the modal. *)
Definition spawnAgent (cfg : Config) (agentId task : string)
  (net : FetchOutcome Result.t) : list Effect :=
  match trim task with
  | EmptyString => [showToast "Please enter a task" "error"]
  | _ =>
      let '(request, result) :=
        fetchOpenClaw cfg "/sessions/spawn"
          {| method := Some "POST";
             body := Some (JSON_stringify
                             (JObj [("agentId", JStr agentId); ("task", JStr task)])) |}
          net in
      [showToast ("Spawning " +:+ getAgentName agentId +:+ "...") "info"] ++
      request ++
      match result with
      | Some r =>
          if truthy_flag (Result.ok r) then
            [showToast ("Spawned " +:+ getAgentName agentId +:+ " ✓") "success";
             hideSpawnModal;
             setTimeout_loadSessions 2000]
          else if truthy_str (Result.error r) then
            [showToast ("Failed to spawn: " +:+ str_or (Result.error r) "Unknown error")
                       "error"]
          else []
      | None => []
      end
  end.

(** ** [quickSpawn] and [triggerCron] *)

(** [tasks[agentId] || 'Execute your default task.'] *)
Definition quickSpawn_task (agentId : string) : string :=
  str_or
    (obj_get
       [("blog-publisher",
         "Check /workspace/agent/drafts/ for ready posts. Publish one if available.");
        ("research-scraper",
         "Pick a topic from INTERESTS.md and do a quick research dive. Save notes.");
        ("inbox-checker",
         "Check for new emails and notifications. Report anything important.")]
       agentId)
    "Execute your default task.".

Definition quickSpawn (cfg : Config) (agentId : string)
  (net : FetchOutcome Result.t) : list Effect :=
  let '(request, result) :=
    fetchOpenClaw cfg "/api/sessions/spawn"
      {| method := Some "POST";
         body := Some (JSON_stringify
                         (JObj [("agentId", JStr agentId);
                                ("task", JStr (quickSpawn_task agentId))])) |}
      net in
  request ++
  match result with
  | Some r =>
      if negb (truthy_str (Result.error r)) then
        [showToast ("Spawned " +:+ getAgentName agentId) "success"; call_loadSessions]
      else
        [showToast ("Failed to spawn: " +:+ str_or (Result.error r) "Unknown error")
                   "error"]
  | None => [showToast "Failed to spawn: Unknown error" "error"]
  end.

Definition triggerCron (cfg : Config) (jobId : string)
  (net : FetchOutcome Result.t) : list Effect :=
  let '(request, result) :=
    fetchOpenClaw cfg "/api/cron/run"
      {| method := Some "POST";
         body := Some (JSON_stringify (JObj [("jobId", JStr jobId)])) |}
      net in
  request ++
  match result with
  | Some r =>
      if negb (truthy_str (Result.error r)) then [showToast "Job triggered" "success"]
      else [showToast ("Failed: " +:+ str_or (Result.error r) "Unknown error") "error"]
  | None => [showToast "Failed: Unknown error" "error"]
  end.

(** *** Reading a trace *)

(** The requests of a trace: where each went and what it carried. *)
Definition requests_of (trace : list Effect) : list (string * option string * option string) :=
  omap (fun e => match e with
                 | fetch url m b => Some (url, m, b)
                 | _ => None
                 end) trace.

(** The toasts of a given type. *)
Definition toasts_of (type : string) (trace : list Effect) : list string :=
  omap (fun e => match e with
                 | showToast message t => if String.eqb t type then Some message else None
                 | _ => None
                 end) trace.

(** ** [saveSettings] *)

Fixpoint parse_hex_digits (s : string) (acc : Z) (n : nat) : Z * nat :=
  match s with
  | EmptyString => (acc, n)
  | String c rest =>
      match hex_value c with
      | Some d => parse_hex_digits rest (acc * 16 + d) (S n)
      | None => (acc, n)
      end
  end.

(** [parseInt(s)] with no radix: leading white space, a sign, a 0x
    prefix for hexadecimal, then the longest run of digits; [None] is NaN. *)
Definition parseInt (s : string) : option Z :=
  let '(neg, s1) :=
    match trimStart s with
    | String c rest =>
        if Ascii.eqb c "-" then (true, rest)
        else if Ascii.eqb c "+" then (false, rest)
        else (false, String c rest)
    | EmptyString => (false, EmptyString)
    end in
  let '(value, count) :=
    match s1 with
    | String z (String x rest) =>
        if Ascii.eqb z "0" && (Ascii.eqb x "x" || Ascii.eqb x "X")
        then parse_hex_digits rest 0 0
        else let '(v, n, _) := parse_digits s1 0 0 in (v, n)
    | _ => let '(v, n, _) := parse_digits s1 0 0 in (v, n)
    end in
  match count with
  | O => None
  | _ => Some (if neg then - value else value)
  end.

(** [get(id)]: [document.getElementById(id)?.value || ''], the form
    being the values of its elements by id. *)
Definition form_get (form : DOM) (id : string) : string :=
  str_or (form !! id) "".

(** The [settings] object before [providers] is added. *)
Definition settings_of_form (cfg : Config) (form : DOM) : list (string * json) :=
  [("hashnode_api_key", JStr (trim (form_get form "settings-hashnode-key")));
   ("hashnode_url", JStr (trim (form_get form "settings-hashnode-url")));
   ("publication_id", JStr (trim (form_get form "settings-publication-id")));
   ("scheduleHour",
    JNum (num_or (parseInt (form_get form "settings-schedule-hour")) (scheduleHour cfg)) 0);
   ("notes_path", JStr (trim (form_get form "settings-notes-path")));
   ("rss_feeds",
    JArr (map JStr
            (List.filter (fun f => truthy_str (Some f))
               (map trim (split "010" (form_get form "settings-rss-feeds"))))))].

(** [provText ? JSON.parse(provText) : {}]; [None] where the parse throws. *)
Definition providers_of_form (form : DOM) : option json :=
  match trim (form_get form "settings-providers-json") with
  | EmptyString => Some (JObj [])
  | provText => JSON_parse provText
  end.

(** [saveSettings]: what it does, the configuration it leaves, and what
    it returns.  [net] is the outcome of the POST, [refreshed] says
    whether the [refreshAll] it awaits resolves. *)
Definition saveSettings (cfg : Config) (form : DOM)
  (net : FetchOutcome Result.t) (refreshed : bool) : list Effect * Config * bool :=
  let settings := settings_of_form cfg form in
  match providers_of_form form with
  | None => ([showToast "Invalid providers JSON" "error"], cfg, false)
  | Some providers =>
      let settings := obj_set settings "providers" providers in
      let request :=
        fetch "/proxy/dashboard/settings" (Some "POST")
              (Some (JSON_stringify (JObj [("settings", JObj settings)]))) in
      let caught := [console_error "Failed to save settings:";
                     showToast "Failed to save settings" "error"] in
      match net with
      | Json _ (Some data) =>
          if truthy_flag (Result.ok data) then
            let cfg' := {| openclawUrl := openclawUrl cfg;
                           n8nUrl := n8nUrl cfg;
                           refreshInterval := refreshInterval cfg;
                           scheduleHour :=
                             num_or (parseInt (form_get form "settings-schedule-hour"))
                                    (scheduleHour cfg) |} in
            if refreshed
            then ([request; showToast "Settings saved" "success"; call_refreshAll],
                  cfg', true)
            else ([request; showToast "Settings saved" "success"; call_refreshAll]
                    ++ caught, cfg', false)
          else
            ([request; showToast "Failed to save settings" "error";
              console_error "Save settings failed:"], cfg, false)
      | Json _ None =>
          ([request; showToast "Failed to save settings" "error";
            console_error "Save settings failed:"], cfg, false)
      | _ => (request :: caught, cfg, false)
      end
  end.

(** A form whose provider box holds one space. *)
Definition blank_providers_form : DOM :=
  <["settings-providers-json" := " "]> (<["settings-schedule-hour" := "22"]> ∅).

(** A form whose provider box holds text that is not JSON. *)
Definition broken_providers_form : DOM :=
  <["settings-providers-json" := "{openai: 1}"]> (<["settings-schedule-hour" := "22"]> ∅).

(** ** The data loaders and [refreshAll] *)

(** The bodies of [/sessions] and [/cron], as far as the loaders read
    them: the expected key may be missing. *)
Record SessionsBody := {
  body_sessions : option (list Session);
}.

Record CronBody := {
  jobs : option (list CronJob.t);
}.

(** What [fetch('/proxy/usage')] followed by [resp.json()] comes to for
    [loadUsage], which reads [data.events] without testing [data] first.
    That read throws for a null body only, so null is told from the other
    falsy bodies ([false], [0] and the empty string), which have no
    properties but can be read.  [UsageError] is a request, or a reading
    of its body, that throws; [UsageBody] is any truthy body, a key it
    does not have being [None]. *)
Inductive UsageOutcome :=
| UsageError
| UsageNull
| UsageFalsy
| UsageBody (data : UsageData).

(** A value without properties, as the readers of [usageData] see it:
    both [usageData.summary] and [usageData.events] are undefined. *)
Definition no_properties : UsageData := {| summary := None; events := None |}.

(** The globals the loaders assign. [usageData] is [None] when it holds
    null; a falsy primitive it holds reads as [no_properties]. *)
Record Globals := {
  state : State;
  usageData : option UsageData;
  filteredEvents : list json;
}.

Definition set_state (f : State -> State) (g : Globals) : Globals :=
  {| state := f (state g); usageData := usageData g;
     filteredEvents := filteredEvents g |}.

Definition set_sessions (l : list Session) (st : State) : State :=
  {| sessions := l; cronJobs := cronJobs st; n8nWorkflows := n8nWorkflows st;
     activity := activity st; gatewayOnline := gatewayOnline st;
     n8nOnline := n8nOnline st |}.

Definition set_cronJobs (l : list CronJob.t) (st : State) : State :=
  {| sessions := sessions st; cronJobs := l; n8nWorkflows := n8nWorkflows st;
     activity := activity st; gatewayOnline := gatewayOnline st;
     n8nOnline := n8nOnline st |}.

Definition set_activity (l : list ActivityItem) (st : State) : State :=
  {| sessions := sessions st; cronJobs := cronJobs st; n8nWorkflows := n8nWorkflows st;
     activity := l; gatewayOnline := gatewayOnline st;
     n8nOnline := n8nOnline st |}.

Definition set_gatewayOnline (b : bool) (st : State) : State :=
  {| sessions := sessions st; cronJobs := cronJobs st; n8nWorkflows := n8nWorkflows st;
     activity := activity st; gatewayOnline := b;
     n8nOnline := n8nOnline st |}.

Definition GET : Options := {| method := None; body := None |}.

(** Each loader is given the outcome of its own request and returns the
    state it leaves.  What the loaders write to the page is not part of
    the state store and is left out. *)

(** [state.gatewayOnline = data && (data.ok === true || !data.error)],
    or false when the request throws. *)
Definition checkGatewayStatus (net : FetchOutcome Result.t) (st : State) : State :=
  match net with
  | Json _ (Some data) =>
      set_gatewayOnline
        (match Result.ok data with
         | Some true => true
         | _ => negb (truthy_str (Result.error data))
         end) st
  | _ => set_gatewayOnline false st
  end.

Definition loadSessions (cfg : Config) (net : FetchOutcome SessionsBody) (st : State)
  : State :=
  match snd (fetchOpenClaw cfg "/sessions" GET net) with
  | Some data =>
      match body_sessions data with
      | Some l => set_sessions l st
      | None => st
      end
  | None => st
  end.

Definition loadCronJobs (cfg : Config) (net : FetchOutcome CronBody) (st : State)
  : State :=
  match snd (fetchOpenClaw cfg "/cron" GET net) with
  | Some data =>
      match jobs data with
      | Some l => set_cronJobs l st
      | None => st
      end
  | None => st
  end.

Definition loadActivity (cfg : Config) (clock : nat -> Z)
  (net : FetchOutcome SessionsBody) (st : State) : State :=
  match snd (fetchOpenClaw cfg "/sessions" GET net) with
  | Some data =>
      match body_sessions data with
      | Some l => set_activity (synthesize_activity clock l) st
      | None => st
      end
  | None => st
  end.

(** [loadUsage]: [usageData = data; filteredEvents = data.events || []].
    On a failed request nothing is assigned.  On a null body the first
    assignment is made and the read of [data.events] throws, so
    [filteredEvents] stays.  Any other body, also a falsy one, is assigned
    and [filteredEvents] becomes its events, or the empty list when it has
    none. *)
Definition loadUsage (net : UsageOutcome) (g : Globals) : Globals :=
  match net with
  | UsageError => g
  | UsageNull =>
      {| state := state g; usageData := None; filteredEvents := filteredEvents g |}
  | UsageFalsy =>
      {| state := state g; usageData := Some no_properties; filteredEvents := [] |}
  | UsageBody data =>
      {| state := state g; usageData := Some data;
         filteredEvents := default [] (events data) |}
  end.

(** The loaders [refreshAll] starts that write a global.  The others in
    its list ([loadBlogPosts], [loadLearningNotes], [loadScheduleHistory],
    [loadOllama]) write the page or [ollamaData] only; [loadPollers]
    stands last in the list and is not defined in this file, so the ones
    before it have been started whatever it does. *)
Inductive Loader :=
| CheckGatewayStatus
| LoadSessions
| LoadCronJobs
| LoadActivity
| LoadUsage.

Definition refresh_loaders : list Loader :=
  [CheckGatewayStatus; LoadSessions; LoadCronJobs; LoadActivity; LoadUsage].

(** What the network answers during one cycle, request by request, and
    the clock [loadActivity] reads. *)
Record Network := {
  net_health : FetchOutcome Result.t;
  net_sessions : FetchOutcome SessionsBody;
  net_cron : FetchOutcome CronBody;
  net_activity : FetchOutcome SessionsBody;
  net_usage : UsageOutcome;
  net_clock : nat -> Z;
}.

(** A loader has one [await] before it touches a global: its
    continuation runs in one piece when its request settles. *)
Definition complete (cfg : Config) (net : Network) (l : Loader) (g : Globals) : Globals :=
  match l with
  | CheckGatewayStatus => set_state (checkGatewayStatus (net_health net)) g
  | LoadSessions => set_state (loadSessions cfg (net_sessions net)) g
  | LoadCronJobs => set_state (loadCronJobs cfg (net_cron net)) g
  | LoadActivity => set_state (loadActivity cfg (net_clock net) (net_activity net)) g
  | LoadUsage => loadUsage (net_usage net) g
  end.

(** [refreshAll]: the requests are all in flight at once and settle in
    some order; [order] is the order in which the continuations run. *)
Definition refreshAll (cfg : Config) (net : Network) (order : list Loader)
  (g : Globals) : Globals :=
  fold_left (fun g l => complete cfg net l g) order g.

(** *** Failure and success as the specification words them *)

(** The collections the cycle refreshes: three fields of the state
    store and the usage snapshot. *)
Inductive Collection :=
| Sessions
| CronJobs
| Activity
| Usage.

(** The expected key of a body, when the request brought one. *)
Definition expected_key {R A} (key : R -> option A) (net : FetchOutcome R) : option A :=
  match net with
  | Json _ (Some data) => key data
  | _ => None
  end.

(** The usage body, when the request brought one with both of its
    expected keys, [summary] and [events]. *)
Definition usage_keys (net : UsageOutcome) : option UsageData :=
  match net with
  | UsageBody data =>
      match summary data, events data with
      | Some _, Some _ => Some data
      | _, _ => None
      end
  | _ => None
  end.

(** A fetch fails by a transport error (the request or the reading of
    its body throws, or the body is null) or by a missing key. *)
Definition fetch_failed (net : Network) (c : Collection) : Prop :=
  match c with
  | Sessions => expected_key body_sessions (net_sessions net) = None
  | CronJobs => expected_key jobs (net_cron net) = None
  | Activity => expected_key body_sessions (net_activity net) = None
  | Usage => usage_keys (net_usage net) = None
  end.

Definition fetch_succeeded (net : Network) (c : Collection) : Prop :=
  match c with
  | Sessions => is_Some (expected_key body_sessions (net_sessions net))
  | CronJobs => is_Some (expected_key jobs (net_cron net))
  | Activity => is_Some (expected_key body_sessions (net_activity net))
  | Usage => is_Some (usage_keys (net_usage net))
  end.

(** The field of the collection holds the data just fetched. *)
Definition holds_fetched (net : Network) (c : Collection) (g : Globals) : Prop :=
  match c with
  | Sessions => expected_key body_sessions (net_sessions net) = Some (sessions (state g))
  | CronJobs => expected_key jobs (net_cron net) = Some (cronJobs (state g))
  | Activity =>
      exists l, expected_key body_sessions (net_activity net) = Some l /\
                activity (state g) = synthesize_activity (net_clock net) l
  | Usage =>
      exists data, usage_keys (net_usage net) = Some data /\
                   usageData g = Some data /\
                   filteredEvents g = default [] (events data)
  end.

(** The field of the collection is what it was in [g]. *)
Definition retained (c : Collection) (g g' : Globals) : Prop :=
  match c with
  | Sessions => sessions (state g') = sessions (state g)
  | CronJobs => cronJobs (state g') = cronJobs (state g)
  | Activity => activity (state g') = activity (state g)
  | Usage => usageData g' = usageData g
  end.

(** A cycle in which [/cron] cannot be reached and the rest answers. *)
Definition cron_down : Network := {|
  net_health := Json true (Some {| Result.ok := Some true; Result.error := None |});
  net_sessions := Json true (Some {| body_sessions := Some tied_sessions |});
  net_cron := NetworkError;
  net_activity := Json true (Some {| body_sessions := Some tied_sessions |});
  net_usage := UsageBody {| summary := Some example_summary;
                            events := Some example_events |};
  net_clock := fun _ => 1700000001000;
|}.

Definition stale_globals : Globals := {|
  state := {| sessions := [named_session];
              cronJobs := [{| CronJob.id := "nightly"; CronJob.name := Some "Nightly post";
                              CronJob.enabled := Some true;
                              CronJob.nextRunAtMs := Some 1700003600000 |}];
              n8nWorkflows := []; activity := [];
              gatewayOnline := false; n8nOnline := false |};
  usageData := Some {| summary := Some []; events := Some [] |};
  filteredEvents := [];
|}.

(** A cycle in which every request is answered and the usage body is the
    empty object. *)
Definition usage_without_keys : Network := {|
  net_health := Json true (Some {| Result.ok := Some true; Result.error := None |});
  net_sessions := Json true (Some {| body_sessions := Some tied_sessions |});
  net_cron := Json true (Some {| jobs := Some [] |});
  net_activity := Json true (Some {| body_sessions := Some tied_sessions |});
  net_usage := UsageBody no_properties;
  net_clock := fun _ => 1700000001000;
|}.

(** Globals that hold a usage snapshot from an earlier cycle. *)
Definition loaded_globals : Globals := {|
  state := state stale_globals;
  usageData := Some {| summary := Some example_summary; events := Some example_events |};
  filteredEvents := example_events;
|}.

(** ** The other dispatchers: [toggleWorkflow] and [terminateSession] *)

(** [fetchN8n]: as [fetchOpenClaw], against [CONFIG.n8nUrl]. *)
Definition fetchN8n {R} (cfg : Config) (endpoint : string) (options : Options)
  (net : FetchOutcome R) : list Effect * option R :=
  let request := fetch (n8nUrl cfg +:+ endpoint) (method options) (body options) in
  match net with
  | Json _ data => ([request], data)
  | _ => ([request; console_error "n8n API error:"], None)
  end.

(** The body of an answer of the workflow engine, as far as
    [toggleWorkflow] reads it. *)
Module N8nResult.
Record t := {
  error : option string;
  message : option string;
}.
End N8nResult.

(** The functions a dispatcher calls once it has reported, beyond those
    [Effect] names. *)
Inductive Followup :=
| call_loadN8nWorkflows
| call_viewAgentDetails.

Definition toggleWorkflow (cfg : Config) (workflowId : string) (activate : bool)
  (net : FetchOutcome N8nResult.t) : list Effect * list Followup :=
  let endpoint :=
    if activate then "/workflows/" +:+ workflowId +:+ "/activate"
    else "/workflows/" +:+ workflowId +:+ "/deactivate" in
  let '(request, result) :=
    fetchN8n cfg endpoint {| method := Some "POST"; body := None |} net in
  match result with
  | Some r =>
      if negb (truthy_str (N8nResult.error r)) then
        (request ++
         [showToast ("Workflow " +:+ (if activate then "activated" else "deactivated"))
                    "success"],
         [call_loadN8nWorkflows])
      else
        (request ++
         [showToast ("Failed: " +:+ str_or (N8nResult.message r) "Unknown error") "error"],
         [])
  | None => (request ++ [showToast "Failed: Unknown error" "error"], [])
  end.

(** [terminateSession]: [confirmed] is the answer to the [confirm]
    dialog it opens first. *)
Definition terminateSession (sessionKey : string) (confirmed : bool)
  (net : FetchOutcome Result.t) : list Effect * list Followup :=
  if negb confirmed then ([], [])
  else
    let request :=
      fetch "/proxy/openclaw/sessions/terminate" (Some "POST")
            (Some (JSON_stringify (JObj [("sessionKey", JStr sessionKey)]))) in
    match net with
    | Json _ (Some data) =>
        if negb (truthy_str (Result.error data)) then
          ([request; showToast "Session terminated" "success"; call_loadSessions],
           [call_viewAgentDetails])
        else
          ([request;
            showToast ("Failed to terminate: " +:+ str_or (Result.error data) "Unknown")
                      "error"], [])
    | Json _ None =>
        ([request; showToast "Failed to terminate: Unknown" "error"], [])
    | _ =>
        ([request; console_error "Terminate failed";
          showToast "Failed to terminate session" "error"], [])
    end.

(** Every toast of a trace, with its type. *)
Definition toasts (trace : list Effect) : list (string * string) :=
  omap (fun e => match e with
                 | showToast message t => Some (message, t)
                 | _ => None
                 end) trace.

(** ** Usage: [filterUsage] and the chart bars *)

(** [filterUsage]: the handler of the provider drop-down. *)
Definition filterUsage (usageData : UsageData) (provider : string) : list json :=
  if String.eqb provider "all" then default [] (events usageData)
  else List.filter (provider_is provider) (default [] (events usageData)).

(** The bars of [renderUsageChart]: for each provider its total and the
    height of its bar in pixels, [Math.max(20, (total / max) * 160)].  The
    height is the exact quotient; the rounding of doubles is not modelled. *)
Definition chart_bars (summary : Summary) (providers : list string)
  : list (string * Z * Q) :=
  let max := chart_max summary providers in
  let totals := providerTotals summary providers in
  map (fun p =>
         let total := default 0 (totals !! p) in
         (p, total, Qmax 20 (inject_Z total / inject_Z max * 160)))
      providers.

(** ** [renderCronJobs] *)

(** The comparator of the job list:
    [(a.state?.nextRunAtMs || 0) - (b.state?.nextRunAtMs || 0)]. *)
Definition by_nextRun (a b : CronJob.t) : Z :=
  num_or (CronJob.nextRunAtMs a) 0 - num_or (CronJob.nextRunAtMs b) 0.

(** The list of the cron panel, sorted on a copy of [state.cronJobs]. *)
Definition sortedJobs (st : State) : list CronJob.t :=
  sort by_nextRun (cronJobs st).

(** The compact list of the overview. *)
Definition upcoming_cron (st : State) : list CronJob.t :=
  slice0 3 (sortedJobs st).

(** [job.schedule] *)
Record Schedule := {
  expr : option string;
  everyMs : option Z;
}.

(** The text of a job's schedule cell: [Every <minutes>min], where the
    number is [everyMs / 60000] and [None] is NaN, or [One-time]. *)
Inductive ScheduleLabel :=
| Every (minutes : option Q)
| OneTime.

(** [job.schedule?.expr || job.schedule?.everyMs ? `Every ...min` : 'One-time']:
    the conditional takes the whole disjunction as its test. *)
Definition schedule_label (schedule : option Schedule) : ScheduleLabel :=
  if truthy_str (schedule ≫= expr) || truthy_num (schedule ≫= everyMs)
  then Every ((fun ms => (inject_Z ms / 60000)%Q) <$> (schedule ≫= everyMs))
  else OneTime.

(** ** [formatTime] and the details of an agent *)

Section FormatTime.
(** [date.toLocaleDateString()], which depends on the locale of the host. *)
Variable toLocaleDateString : Z -> string.

Definition formatTime (now date : Z) : string :=
  let diff := now - date in
  if diff <? 60000 then "Just now"
  else if diff <? 3600000 then toString (diff / 60000) +:+ "m ago"
  else if diff <? 86400000 then toString (diff / 3600000) +:+ "h ago"
  else toLocaleDateString date.

End FormatTime.

(** What the details modal shows of an agent's sessions, once
    [viewAgentDetails] has reloaded them into the state. *)
Record AgentDetails := {
  details_sessions : list Session;
  sessions_count : nat;
  lastAct : Z;
  details_status : string;
}.

Definition viewAgentDetails (st : State) (agentId : string) : AgentDetails :=
  let sessions := viewAgentDetails_sessions st agentId in
  {| details_sessions := sessions;
     sessions_count := length sessions;
     lastAct := fold_left (fun max s => Z.max max (num_or (updatedAt s) 0)) sessions 0;
     details_status := if (0 <? length sessions)%nat then "● Active" else "○ Idle" |}.

(** ** [loadAgentNotes] *)

Module Note.
Record t := {
  title : option string;
  excerpt : option string;
  path : option string;
}.
End Note.

(** The filter of the notes: the lower-cased title or excerpt includes
    [name]. *)
Definition note_matches (name : string) (n : Note.t) : bool :=
  includes (toLowerCase (str_or (Note.title n) "")) name
  || includes (toLowerCase (str_or (Note.excerpt n) "")) name.

(** The notes listed for an agent; [notes] is [data.notes]. *)
Definition loadAgentNotes_list (agentId : string) (notes : option (list Note.t))
  : list Note.t :=
  let notes := default [] notes in
  let name := toLowerCase (getAgentName agentId) in
  let matches := List.filter (note_matches name) notes in
  match matches with
  | [] => slice0 10 notes
  | _ => matches
  end.

(** *** Words for the properties of these functions *)

(** A note mentions [name], up to the case of letters. *)
Definition mentions (name : string) (n : Note.t) : Prop :=
  contains_ignoring_case (str_or (Note.title n) "") name \/
  contains_ignoring_case (str_or (Note.excerpt n) "") name.

(** The character [c] occurs in [s]. *)
Definition has_char (c : ascii) (s : string) : Prop :=
  In c (list_ascii_of_string s).

(** A feed address as [saveSettings] posts it: not empty, no white space
    around it, on one line. *)
Definition clean_feed (f : string) : Prop :=
  f <> "" /\ trim f = f /\ ~ has_char "010" f.

(** * Properties

    From here on: lemmas about the definitions above, and the theorems
    that settle the claims C1 to C10 of the specification. *)

(** ** Numbers as text *)

Lemma toString_inj (n m : Z) : toString n = toString m -> n = m.
Proof.
  unfold toString. intros H.
  assert (Hi : Z.to_int n = Z.to_int m).
  { apply (f_equal NilEmpty.int_of_string) in H.
    rewrite !NilEmpty.isi in H. congruence. }
  apply (f_equal Z.of_int) in Hi.
  now rewrite !DecimalZ.of_to in Hi.
Qed.

Lemma length_append (s1 s2 : string) :
  String.length (s1 +:+ s2) = (String.length s1 + String.length s2)%nat.
Proof. induction s1 as [|c s1 IH]; simpl; [reflexivity | now rewrite IH]. Qed.

Lemma padStart_two_digits (n : Z) :
  0 <= n < 100 -> padStart (toString n) 2 "0" = two_digits n.
Proof.
  intros Hn.
  rewrite <- (Z2Nat.id n) by lia.
  assert (Hk : (Z.to_nat n < 100)%nat) by lia.
  generalize dependent (Z.to_nat n). intros k Hk.
  do 100 (destruct k as [|k]; [reflexivity|]).
  lia.
Qed.

Lemma two_digits_length (n : Z) :
  0 <= n < 100 -> String.length (two_digits n) = 2%nat.
Proof.
  intros Hn.
  rewrite <- (Z2Nat.id n) by lia.
  assert (Hk : (Z.to_nat n < 100)%nat) by lia.
  generalize dependent (Z.to_nat n). intros k Hk.
  do 100 (destruct k as [|k]; [reflexivity|]).
  lia.
Qed.

(** ** The schedule countdown *)

Section Countdown.
Variable tz : Z.

Lemma timeWithinDay_range (t : Z) : 0 <= timeWithinDay tz t < 86400000.
Proof. unfold timeWithinDay, msPerDay. apply Z.mod_pos_bound. lia. Qed.

Lemma is_target_timeWithinDay (H t : Z) :
  0 <= H <= 23 -> (is_target tz H t <-> timeWithinDay tz t = H * 3600000).
Proof.
  intros HH. unfold is_target, getHours, getMinutes, getSeconds, getMilliseconds.
  pose proof (timeWithinDay_range t) as Hw.
  set (w := timeWithinDay tz t) in *. clearbody w.
  split.
  - intros (Hh & Hm & Hs & Hms).
    Z.div_mod_to_equations. lia.
  - intros ->. repeat split; Z.div_mod_to_equations; lia.
Qed.

Lemma timeWithinDay_shift (t d : Z) :
  0 <= timeWithinDay tz t + d < 86400000 ->
  timeWithinDay tz (t + d) = timeWithinDay tz t + d.
Proof.
  unfold timeWithinDay, msPerDay. intros Hd.
  symmetry. apply (Z.mod_unique_pos _ _ ((t + tz) / 86400000)); [lia|].
  pose proof (Z.div_mod (t + tz) 86400000). lia.
Qed.

Lemma timeWithinDay_next_day (t : Z) :
  timeWithinDay tz (t + 86400000) = timeWithinDay tz t.
Proof.
  unfold timeWithinDay, msPerDay.
  replace (t + 86400000 + tz) with (t + tz + 1 * 86400000) by lia.
  apply Z.mod_add. lia.
Qed.

(** Two instants with the same time of day are whole days apart. *)
Lemma same_timeWithinDay_apart (t u : Z) :
  timeWithinDay tz t = timeWithinDay tz u ->
  exists k, u = t + k * 86400000.
Proof.
  unfold timeWithinDay, msPerDay. intros Huv.
  exists ((u + tz) / 86400000 - (t + tz) / 86400000).
  pose proof (Z.div_mod (t + tz) 86400000).
  pose proof (Z.div_mod (u + tz) 86400000). lia.
Qed.

Lemma scheduleTime_is_next (cfg : Config) (now : Z) :
  0 <= scheduleHour cfg <= 23 ->
  next_target tz (scheduleHour cfg) now (scheduleTime tz cfg now).
Proof.
  intros HH. unfold next_target.
  pose proof (timeWithinDay_range now) as Hw.
  set (h := scheduleHour cfg * 3600000).
  assert (Hh : 0 <= h < 86400000) by (unfold h; lia).
  assert (Hset : setHours tz now (scheduleHour cfg) 0 0 0
                 = now + (h - timeWithinDay tz now)) by (unfold setHours, h; lia).
  assert (Htod : timeWithinDay tz (setHours tz now (scheduleHour cfg) 0 0 0) = h).
  { rewrite Hset, timeWithinDay_shift; lia. }
  unfold scheduleTime. rewrite Hset in *.
  destruct (now >? now + (h - timeWithinDay tz now)) eqn:Hgt.
  - apply Z.gtb_lt in Hgt. unfold setDate_next, msPerDay.
    split; [lia|]. split.
    + apply is_target_timeWithinDay; [lia|].
      rewrite timeWithinDay_next_day. exact Htod.
    + intros u Hu Htu. apply is_target_timeWithinDay in Htu; [|lia].
      fold h in Htu. rewrite <- Htod in Htu. symmetry in Htu.
      apply same_timeWithinDay_apart in Htu as [k ->]. lia.
  - rewrite Z.gtb_ltb in Hgt. apply Z.ltb_ge in Hgt.
    split; [lia|]. split.
    + apply is_target_timeWithinDay; [lia|]. exact Htod.
    + intros u Hu Htu. apply is_target_timeWithinDay in Htu; [|lia].
      fold h in Htu. rewrite <- Htod in Htu. symmetry in Htu.
      apply same_timeWithinDay_apart in Htu as [k ->]. lia.
Qed.

Lemma scheduleTime_within_a_day (cfg : Config) (now : Z) :
  0 <= scheduleHour cfg <= 23 ->
  0 <= scheduleTime tz cfg now - now < 86400000.
Proof.
  intros HH. pose proof (timeWithinDay_range now) as Hw.
  unfold scheduleTime, setHours, setDate_next, msPerDay.
  destruct (_ >? _) eqn:Hgt.
  - apply Z.gtb_lt in Hgt. lia.
  - rewrite Z.gtb_ltb in Hgt. apply Z.ltb_ge in Hgt. lia.
Qed.

Lemma countdown_hhmmss (cfg : Config) (now : Z) :
  0 <= scheduleHour cfg <= 23 ->
  countdown tz cfg now = hhmmss (scheduleTime tz cfg now - now).
Proof.
  intros HH. pose proof (scheduleTime_within_a_day cfg now HH) as Hd.
  unfold countdown, hhmmss.
  set (diff := scheduleTime tz cfg now - now) in *. clearbody diff.
  rewrite !Z.rem_mod_nonneg by lia.
  change (1000 * 60 * 60) with 3600000. change (1000 * 60) with 60000.
  assert (Hm : diff mod 3600000 / 60000 = (diff / 60000) mod 60)
    by (Z.div_mod_to_equations; lia).
  assert (Hs : diff mod 60000 / 1000 = (diff / 1000) mod 60)
    by (Z.div_mod_to_equations; lia).
  rewrite Hm, Hs.
  rewrite !padStart_two_digits; [reflexivity| |  |];
    Z.div_mod_to_equations; lia.
Qed.

Lemma hhmmss_length (delta : Z) :
  0 <= delta < 86400000 -> String.length (hhmmss delta) = 8%nat.
Proof.
  intros Hd. unfold hhmmss.
  rewrite !length_append.
  rewrite !two_digits_length; [reflexivity| | |];
    Z.div_mod_to_equations; lia.
Qed.

End Countdown.

Example countdown_ist_epoch : countdown 19800000 CONFIG 0 = "17:30:00".
Proof. reflexivity. Qed.

Example countdown_just_passed : countdown 0 CONFIG (23 * 3600000 + 1) = "23:59:59".
Proof. reflexivity. Qed.

Example countdown_on_target : countdown 0 CONFIG (23 * 3600000) = "00:00:00".
Proof. reflexivity. Qed.



(** ** The session statistic *)

Lemma filter_active_length (l : list Session) :
  length (List.filter (fun s => truthy_flag (active s)) l) = active_count l.
Proof.
  induction l as [|s l IH]; simpl; [reflexivity|].
  destruct (truthy_flag (active s)); simpl; now rewrite IH.
Qed.

Lemma updateStats_stat_sessions (tz : Z) (cfg : Config) (st : State) (now : Z) (dom : DOM) :
  updateStats tz cfg st now dom !! "stat-sessions" =
  Some (toString (Z.of_nat (length_or (active_count (sessions st))
                                      (length (sessions st))))).
Proof.
  unfold updateStats, updateScheduleCountdown.
  rewrite !lookup_insert_ne by done.
  now rewrite lookup_insert_eq, filter_active_length.
Qed.

(** C10.  The statistic shows the number of sessions whose [active] flag
    is truthy when there is one; when the list is not empty and no session
    is marked active it shows the number of sessions, never zero. *)
Theorem stat_sessions_falls_back_to_total
  (tz : Z) (cfg : Config) (st : State) (now : Z) (dom : DOM) :
  ((0 < active_count (sessions st))%nat ->
     updateStats tz cfg st now dom !! "stat-sessions"
     = Some (toString (Z.of_nat (active_count (sessions st))))) /\
  (sessions st <> [] -> active_count (sessions st) = 0%nat ->
     updateStats tz cfg st now dom !! "stat-sessions"
     = Some (toString (Z.of_nat (length (sessions st)))) /\
     updateStats tz cfg st now dom !! "stat-sessions" <> Some "0").
Proof.
  rewrite updateStats_stat_sessions. split.
  - intros Hpos. destruct (active_count (sessions st)); [lia | reflexivity].
  - intros Hne Hzero. rewrite Hzero. simpl. split; [reflexivity|].
    intros Heq. injection Heq as Heq.
    apply (toString_inj _ 0) in Heq.
    destruct (sessions st); [congruence | simpl in Heq; lia].
Qed.

Lemma stat_sessions_falls_back_to_total_witness :
  updateStats 19800000 CONFIG
    {| sessions := tied_sessions; cronJobs := []; n8nWorkflows := [];
       activity := []; gatewayOnline := true; n8nOnline := false |}
    1700000000000 ∅ !! "stat-sessions" = Some "2".
Proof.
  apply (stat_sessions_falls_back_to_total 19800000 CONFIG
           {| sessions := tied_sessions; cronJobs := []; n8nWorkflows := [];
              activity := []; gatewayOnline := true; n8nOnline := false |}
           1700000000000 ∅).
  - discriminate.
  - reflexivity.
Defined.

(** ** The activity feed *)

Section Sorting.
Context {A : Type} (cmp : A -> A -> Z).
Hypothesis cmp_total : forall a b, 0 < cmp a b -> cmp b a <= 0.

(** [a] may stand before [b]. *)
Let before (a b : A) : Prop := cmp a b <= 0.

Lemma sort_insert_HdRel (x y : A) (l : list A) :
  before y x -> HdRel before y l -> HdRel before y (sort_insert cmp x l).
Proof.
  intros Hyx Hl. destruct l as [|z l]; simpl.
  - now constructor.
  - destruct (cmp x z <=? 0); constructor; [exact Hyx|].
    now inversion Hl.
Qed.

Lemma sort_insert_Sorted (x : A) (l : list A) :
  Sorted before l -> Sorted before (sort_insert cmp x l).
Proof.
  induction 1 as [|y l Hs IH Hhd]; simpl.
  - repeat constructor.
  - destruct (cmp x y <=? 0) eqn:Hxy.
    + apply Z.leb_le in Hxy. repeat constructor; assumption.
    + apply Z.leb_gt in Hxy. constructor; [exact IH|].
      apply sort_insert_HdRel; [|exact Hhd].
      now apply cmp_total.
Qed.

Lemma sort_Sorted (l : list A) : Sorted before (sort cmp l).
Proof.
  induction l as [|x l IH]; simpl; [constructor | now apply sort_insert_Sorted].
Qed.

Lemma sort_insert_Permutation (x : A) (l : list A) :
  Permutation (x :: l) (sort_insert cmp x l).
Proof.
  induction l as [|y l IH]; simpl; [reflexivity|].
  destruct (cmp x y <=? 0); [reflexivity|].
  rewrite perm_swap. now constructor.
Qed.

Lemma sort_Permutation (l : list A) : Permutation l (sort cmp l).
Proof.
  induction l as [|x l IH]; simpl; [reflexivity|].
  rewrite <- sort_insert_Permutation. now constructor.
Qed.

Lemma Sorted_take (n : nat) (l : list A) :
  Sorted before l -> Sorted before (take n l).
Proof.
  intros Hs. revert n. induction Hs as [|y l Hs IH Hhd]; intros [|n]; simpl;
    try constructor.
  - apply IH.
  - destruct Hhd; destruct n; simpl; constructor; assumption.
Qed.

Lemma Sorted_adjacent (l : list A) (i : nat) (a b : A) :
  Sorted before l -> l !! i = Some a -> l !! S i = Some b -> before a b.
Proof.
  intros Hs. revert i. induction Hs as [|y l Hs IH Hhd]; intros i Ha Hb.
  - discriminate.
  - destruct i as [|i]; simpl in *.
    + injection Ha as ->. destruct Hhd; simpl in Hb; [discriminate|].
      now injection Hb as ->.
    + eapply IH; eassumption.
Qed.

End Sorting.

Lemma synthesize_activity_Sorted (clock : nat -> Z) (fetched : list Session) :
  Sorted (fun a b => timestamp b - timestamp a <= 0)
         (synthesize_activity clock fetched).
Proof.
  unfold synthesize_activity, slice0.
  apply (Sorted_take (fun a b => timestamp b - timestamp a)).
  apply sort_Sorted. intros a b. lia.
Qed.

Lemma synthesize_activity_length (clock : nat -> Z) (fetched : list Session) :
  length (synthesize_activity clock fetched) = Nat.min 20 (length fetched).
Proof.
  unfold synthesize_activity, slice0.
  rewrite length_take.
  rewrite <- (Permutation_length (sort_Permutation _ _)).
  now rewrite length_imap.
Qed.

Example activity_of_tied_sessions :
  map timestamp (synthesize_activity (fun _ => 0) tied_sessions)
  = [1700000000000; 1700000000000].
Proof. reflexivity. Qed.

(** C4, as stated, fails: two sessions updated in the same millisecond
    give a feed in which an entry is followed by one with an equal
    timestamp. *)
Lemma activity_feed_not_strictly_descending :
  map timestamp (synthesize_activity (fun _ => 0) tied_sessions)
    = [1700000000000; 1700000000000] /\
  ~ strictly_descending (synthesize_activity (fun _ => 0) tied_sessions).
Proof.
  split; [reflexivity|].
  intros Hstrict.
  specialize (Hstrict 0%nat _ _ eq_refl eq_refl). simpl in Hstrict. lia.
Qed.

(** C4, amended.  The feed is sorted descending by timestamp, ties
    allowed (no entry is followed by one with a greater timestamp), and
    holds at most 20 entries. *)
Theorem activity_feed_descending_at_most_20
  (clock : nat -> Z) (fetched : list Session) :
  descending (synthesize_activity clock fetched) /\
  (length (synthesize_activity clock fetched) <= 20)%nat.
Proof.
  split.
  - intros i a b Ha Hb.
    pose proof (Sorted_adjacent (fun a b => timestamp b - timestamp a) _ i a b
                  (synthesize_activity_Sorted clock fetched) Ha Hb) as Hab.
    simpl in Hab. lia.
  - rewrite synthesize_activity_length. lia.
Qed.

(** ** Agent activity *)

Example key_agentId_gateway :
  key_agentId {| key := Some "agent:research-scraper:run7"; agentId := None;
                 updatedAt := None; ageMs := None; totalTokens := None;
                 active := None |} = "research-scraper".
Proof. reflexivity. Qed.

Example key_agentId_no_colon :
  key_agentId {| key := Some "abc123"; agentId := Some "inbox-checker";
                 updatedAt := None; ageMs := None; totalTokens := None;
                 active := None |} = "main".
Proof. reflexivity. Qed.

Lemma age_under_five_minutes (a : Z) :
  (inject_Z a / 60000 < 5)%Q <-> a < 300000.
Proof.
  unfold Qlt, Qdiv, Qmult, Qinv, inject_Z. simpl. lia.
Qed.

Lemma scan_session_active (acc : AgentScan) (s : Session) (id : string) :
  id ∈ activeAgentIds (scan_session acc s) <->
  id ∈ activeAgentIds acc \/ (key_agentId s = id /\ num_or (ageMs s) 0 < 300000).
Proof.
  unfold scan_session. simpl.
  destruct (Qlt_le_dec _ 5) as [Hlt|Hge].
  - apply (proj1 (age_under_five_minutes _)) in Hlt.
    rewrite elem_of_union, elem_of_singleton. split.
    + intros [->|H]; [right; split; [reflexivity | exact Hlt] | left; exact H].
    + intros [H|[<- _]]; [right; exact H | left; reflexivity].
  - assert (~ num_or (ageMs s) 0 < 300000).
    { intros Hlt. apply (proj2 (age_under_five_minutes _)) in Hlt.
      exact (Qlt_not_le _ _ Hlt Hge). }
    tauto.
Qed.

(** What [renderAgents] marks: the agents named by the second segment of
    the key of a session younger than five minutes. *)
Lemma scan_sessions_active (l : list Session) (id : string) :
  id ∈ activeAgentIds (scan_sessions l) <->
  exists s, s ∈ l /\ key_agentId s = id /\ num_or (ageMs s) 0 < 300000.
Proof.
  unfold scan_sessions.
  assert (Hgen : forall acc,
    id ∈ activeAgentIds (fold_left scan_session l acc) <->
    id ∈ activeAgentIds acc \/
    exists s, s ∈ l /\ key_agentId s = id /\ num_or (ageMs s) 0 < 300000).
  { induction l as [|s l IH]; intros acc; simpl.
    - split; [tauto|]. intros [H|(s & Hs & _)]; [exact H|]. inversion Hs.
    - rewrite IH, scan_session_active. split.
      + intros [[H|H]|(s' & Hs' & H)]; [tauto| |].
        * right. exists s. split; [left|exact H].
        * right. exists s'. split; [now right|exact H].
      + intros [H|(s' & Hs' & H)]; [tauto|].
        apply elem_of_cons in Hs' as [->|Hs']; [tauto|].
        right. exists s'. tauto. }
  rewrite Hgen. simpl. rewrite elem_of_empty. tauto.
Qed.

(** C1 on the session [named_session]: its [agentId] field names
    blog-publisher and it is one minute old, and [viewAgentDetails] counts
    it as a session of blog-publisher; [renderAgents] reads the key
    alone, finds no second segment, falls back to main, and shows the
    main agent active and blog-publisher idle with no last activity. *)
Theorem renderAgents_reads_key_not_agentId :
  let st := {| sessions := [named_session]; cronJobs := []; n8nWorkflows := [];
               activity := []; gatewayOnline := true; n8nOnline := false |} in
  sAgent named_session = "blog-publisher" /\
  viewAgentDetails_sessions st "blog-publisher" = [named_session] /\
  viewAgentDetails_sessions st "main" = [] /\
  num_or (ageMs named_session) 0 < 5 * 60000 /\
  key_agentId named_session = "main" /\
  map (fun c => (Agent.id (card_agent c), isActive c, lastActivity c)) (renderAgents st)
  = [("main", true, Some 1700000000000); ("blog-publisher", false, None);
     ("research-scraper", false, None); ("inbox-checker", false, None)].
Proof.
  repeat split; vm_compute; reflexivity.
Qed.

Lemma opt_max_assoc (a b c : option Z) :
  opt_max (opt_max a b) c = opt_max a (opt_max b c).
Proof.
  destruct a, b, c; simpl; try reflexivity. now rewrite Z.max_assoc.
Qed.

(** One step of the scan, on a dictionary of positive timestamps. *)
Lemma scan_session_last (acc : AgentScan) (s : Session) (u : Z) (id : string) :
  (forall k v, agentLastActivity acc !! k = Some v -> 0 < v) ->
  updatedAt s = Some u -> 0 < u ->
  agentLastActivity (scan_session acc s) !! id
  = (if String.eqb (key_agentId s) id
     then opt_max (agentLastActivity acc !! id) (Some u)
     else agentLastActivity acc !! id) /\
  (forall k v, agentLastActivity (scan_session acc s) !! k = Some v -> 0 < v).
Proof.
  intros Hpos Hu Hu0. unfold scan_session. simpl. rewrite Hu.
  destruct (agentLastActivity acc !! key_agentId s) as [old|] eqn:Hold; simpl.
  - pose proof (Hpos _ _ Hold) as Hold0.
    destruct (Z.eqb_spec old 0) as [|_]; [lia|]. simpl.
    destruct (Z.ltb_spec old u) as [Hlt|Hge]; simpl.
    + split.
      * destruct (String.eqb_spec (key_agentId s) id) as [<-|Hne].
        -- rewrite lookup_insert_eq, Hold. simpl. f_equal. lia.
        -- now rewrite lookup_insert_ne.
      * intros k v. destruct (decide (key_agentId s = k)) as [<-|Hne].
        -- rewrite lookup_insert_eq. congruence.
        -- rewrite lookup_insert_ne by exact Hne. apply Hpos.
    + split; [|exact Hpos].
      destruct (String.eqb_spec (key_agentId s) id) as [<-|Hne]; [|reflexivity].
      rewrite Hold. simpl. f_equal. lia.
  - split.
    + destruct (String.eqb_spec (key_agentId s) id) as [<-|Hne].
      * now rewrite lookup_insert_eq, Hold.
      * now rewrite lookup_insert_ne.
    + intros k v. destruct (decide (key_agentId s = k)) as [<-|Hne].
      * rewrite lookup_insert_eq. congruence.
      * rewrite lookup_insert_ne by exact Hne. apply Hpos.
Qed.

(** What [renderAgents] remembers: per key segment, the greatest
    [updatedAt]. *)
Lemma scan_sessions_last (l : list Session) (id : string) :
  (forall s, s ∈ l -> exists u, updatedAt s = Some u /\ 0 < u) ->
  agentLastActivity (scan_sessions l) !! id = max_updatedAt key_agentId id l /\
  (forall v, agentLastActivity (scan_sessions l) !! id = Some v -> 0 < v).
Proof.
  unfold scan_sessions. intros Hl.
  assert (Hgen : forall acc,
    (forall k v, agentLastActivity acc !! k = Some v -> 0 < v) ->
    agentLastActivity (fold_left scan_session l acc) !! id
    = opt_max (agentLastActivity acc !! id) (max_updatedAt key_agentId id l) /\
    (forall k v, agentLastActivity (fold_left scan_session l acc) !! k = Some v -> 0 < v)).
  { induction l as [|s l IH]; intros acc Hacc; simpl.
    - split; [now destruct (agentLastActivity acc !! id) | exact Hacc].
    - destruct (Hl s) as (u & Hu & Hu0); [left|].
      destruct (scan_session_last acc s u id Hacc Hu Hu0) as [Hstep Hpos].
      destruct (IH (fun s' Hs' => Hl s' (list_elem_of_further _ _ _ Hs'))
                   (scan_session acc s) Hpos) as [Hrest Hpos'].
      split; [|exact Hpos'].
      rewrite Hrest, Hstep, Hu.
      destruct (String.eqb (key_agentId s) id); [apply opt_max_assoc | reflexivity]. }
  destruct (Hgen {| activeAgentIds := ∅; agentLastActivity := ∅ |}) as [Hlast Hpos].
  { intros k v. simpl. rewrite lookup_empty. discriminate. }
  split; [exact Hlast | apply Hpos].
Qed.

Lemma max_updatedAt_ext (f g : Session -> string) (id : string) (l : list Session) :
  (forall s, s ∈ l -> f s = g s) -> max_updatedAt f id l = max_updatedAt g id l.
Proof.
  induction l as [|s l IH]; intros Hfg; simpl; [reflexivity|].
  rewrite (Hfg s) by left.
  rewrite IH by (intros s' Hs'; apply Hfg; now right). reflexivity.
Qed.

(** X1.  When the key of every session carries in its second segment
    the agent its [agentId] field names, and every
    [updatedAt] is a positive time value, a card is active exactly when
    its agent has a session younger than five minutes, and it shows the
    greatest [updatedAt] of the agent's sessions. *)
Theorem renderAgents_when_key_names_agent (st : State) (card : AgentCard) :
  (forall s, s ∈ sessions st -> sAgent s = key_agentId s) ->
  (forall s, s ∈ sessions st -> exists u, updatedAt s = Some u /\ 0 < u) ->
  card ∈ renderAgents st ->
  (isActive card = true <->
   exists s, s ∈ sessions st /\ sAgent s = Agent.id (card_agent card) /\
             num_or (ageMs s) 0 < 5 * 60000) /\
  lastActivity card = max_updatedAt sAgent (Agent.id (card_agent card)) (sessions st).
Proof.
  intros Hkey Hupd Hcard. unfold renderAgents in Hcard.
  apply list_elem_of_fmap in Hcard as (agent & -> & _). simpl.
  split.
  - rewrite bool_decide_eq_true, scan_sessions_active.
    split; intros (s & Hs & Hid & Hage); exists s; (split; [exact Hs|]);
      (split; [|exact Hage]); [rewrite Hkey | rewrite <- Hkey]; assumption.
  - destruct (scan_sessions_last (sessions st) (Agent.id agent) Hupd) as [Hlast Hpos].
    rewrite (max_updatedAt_ext sAgent key_agentId) by exact Hkey.
    rewrite <- Hlast.
    destruct (agentLastActivity (scan_sessions (sessions st)) !! Agent.id agent)
      as [v|] eqn:Hv; [|reflexivity].
    simpl. specialize (Hpos v eq_refl).
    destruct (Z.eqb_spec v 0); [lia | reflexivity].
Qed.

Lemma renderAgents_when_key_names_agent_witness :
  let st := {| sessions := tied_sessions; cronJobs := []; n8nWorkflows := [];
               activity := []; gatewayOnline := true; n8nOnline := false |} in
  let card := {| card_agent :=
                   {| Agent.id := "blog-publisher"; Agent.name := "Blog Publisher";
                      Agent.emoji := "📝"; Agent.model := "claude-sonnet-4-5";
                      Agent.workspace := "/workspace/agents/blog-publisher" |};
                 isActive := true; lastActivity := Some 1700000000000 |} in
  (isActive card = true <->
   exists s, s ∈ sessions st /\ sAgent s = Agent.id (card_agent card) /\
             num_or (ageMs s) 0 < 5 * 60000) /\
  lastActivity card = max_updatedAt sAgent (Agent.id (card_agent card)) (sessions st).
Proof.
  intros st card.
  apply (renderAgents_when_key_names_agent st card).
  - intros s Hs. unfold st in Hs. simpl in Hs.
    apply elem_of_cons in Hs as [->|Hs]; [reflexivity|].
    apply elem_of_cons in Hs as [->|Hs]; [reflexivity|]. inversion Hs.
  - intros s Hs. unfold st in Hs. simpl in Hs.
    apply elem_of_cons in Hs as [->|Hs]; [eexists; split; [reflexivity|lia]|].
    apply elem_of_cons in Hs as [->|Hs]; [eexists; split; [reflexivity|lia]|].
    inversion Hs.
  - unfold st, card. vm_compute. right. left.
Defined.

(** ** Usage totals *)

Lemma fold_requests_sum (ms : list (string * ModelInfo)) (acc : Z) :
  fold_left (fun total m => total + num_or (requests (snd m)) 0) ms acc
  = acc + requests_sum ms.
Proof.
  revert acc. induction ms as [|m ms IH]; intros acc; simpl; [lia|].
  rewrite IH. destruct (requests (snd m)) as [n|]; simpl; [|lia].
  destruct (Z.eqb_spec n 0); lia.
Qed.

Lemma provider_total_sum (summary : Summary) (p : string) :
  provider_total summary p = requests_sum (default [] (summary_models summary p)).
Proof.
  unfold provider_total. destruct (summary_models summary p); simpl; [|reflexivity].
  now rewrite fold_requests_sum.
Qed.

Lemma providerTotals_lookup (summary : Summary) (providers : list string) (p : string) :
  p ∈ providers ->
  providerTotals summary providers !! p = Some (provider_total summary p).
Proof.
  unfold providerTotals.
  assert (Hgen : forall totals : gmap string Z,
    fold_left (fun totals p => <[p := provider_total summary p]> totals)
              providers totals !! p
    = if bool_decide (p ∈ providers) then Some (provider_total summary p)
      else totals !! p).
  { induction providers as [|q l IH]; intros totals; simpl.
    - reflexivity.
    - rewrite IH. destruct (decide (p ∈ l)) as [Hin|Hin].
      + rewrite !bool_decide_eq_true_2; [reflexivity| now right | exact Hin].
      + rewrite (bool_decide_eq_false_2 _ Hin).
        destruct (decide (q = p)) as [->|Hne].
        * rewrite lookup_insert_eq, bool_decide_eq_true_2; [reflexivity | left].
        * rewrite lookup_insert_ne by exact Hne.
          rewrite bool_decide_eq_false_2; [reflexivity|].
          intros Hin'. apply elem_of_cons in Hin' as [->|]; tauto. }
  intros Hp. now rewrite Hgen, bool_decide_eq_true_2.
Qed.

Lemma List_filter_stdpp {A} (f : A -> bool) (P : A -> Prop)
  `{forall x, Decision (P x)} (l : list A) :
  (forall x, f x = true <-> P x) -> List.filter f l = filter P l.
Proof.
  intros Hf. induction l as [|x l IH]; simpl; [reflexivity|].
  rewrite filter_cons. destruct (decide (P x)) as [HP|HP].
  - rewrite (proj2 (Hf x) HP). now rewrite IH.
  - destruct (f x) eqn:Hfx; [apply Hf in Hfx; contradiction | exact IH].
Qed.

Lemma neq_string_eqb (k c : string) : negb (String.eqb k c) = true <-> k <> c.
Proof. destruct (String.eqb_spec k c); simpl; split; congruence. Qed.

(** C5.  A provider's total is the sum of the [requests] fields of its
    models; the provider list is the summary's keys without
    [total_requests], in their order, and with the toggle on without
    Gateway as well; on the example summary the totals are Gateway = 5 and
    OpenAI = 10, and with the toggle on the provider count reads 1. *)
Theorem usage_totals_and_provider_list :
  (forall (summary : Summary) (hideInternal : option bool) (p : string),
     p ∈ usage_providers hideInternal summary ->
     providerTotals summary (usage_providers hideInternal summary) !! p
     = Some (requests_sum (default [] (summary_models summary p)))) /\
  (forall (summary : Summary) (hideInternal : option bool),
     hideInternal = None \/ hideInternal = Some false ->
     usage_providers hideInternal summary
     = filter (fun k => k <> "total_requests") (map fst summary)) /\
  (forall summary : Summary,
     usage_providers (Some true) summary
     = filter (fun k => k <> "Gateway")
         (filter (fun k => k <> "total_requests") (map fst summary)) /\
     "Gateway" ∉ usage_providers (Some true) summary) /\
  providerTotals example_summary (usage_providers (Some false) example_summary)
    !! "Gateway" = Some 5 /\
  providerTotals example_summary (usage_providers (Some false) example_summary)
    !! "OpenAI" = Some 10 /\
  usage_providers (Some true) example_summary = ["OpenAI"] /\
  renderUsage_counts (Some true) example_summary ∅ !! "usage-providers-count"
    = Some "1".
Proof.
  split; [|split; [|split]].
  - intros summary hide p Hp.
    rewrite providerTotals_lookup by exact Hp.
    now rewrite provider_total_sum.
  - intros summary hide [->| ->]; unfold usage_providers; simpl;
      apply List_filter_stdpp; intros k; apply neq_string_eqb.
  - intros summary. unfold usage_providers. simpl.
    rewrite (List_filter_stdpp _ (fun k => k <> "Gateway"))
      by (intros k; apply neq_string_eqb).
    rewrite (List_filter_stdpp _ (fun k => k <> "total_requests"))
      by (intros k; apply neq_string_eqb).
    split; [reflexivity|].
    intros Hin. apply list_elem_of_filter in Hin as [Hne _]. now apply Hne.
  - repeat split; vm_compute; reflexivity.
Qed.

Lemma usage_totals_and_provider_list_witness :
  providerTotals example_summary (usage_providers None example_summary) !! "OpenAI"
  = Some (requests_sum (default [] (summary_models example_summary "OpenAI"))).
Proof.
  apply (proj1 usage_totals_and_provider_list example_summary None "OpenAI").
  vm_compute. right. left.
Defined.

(** ** Event filtering *)

Lemma append_nil (b : string) : "" +:+ b = b.
Proof. reflexivity. Qed.

Lemma append_cons (c : ascii) (a b : string) :
  String c a +:+ b = String c (a +:+ b).
Proof. reflexivity. Qed.

Lemma prefix_app (q s : string) :
  String.prefix q s = true <-> exists post, s = q +:+ post.
Proof.
  revert q. induction s as [|d s IH]; intros q; destruct q as [|c q]; simpl.
  - split; [intros _; now exists "" | reflexivity].
  - split; [discriminate | intros [post H]; discriminate].
  - split; [intros _; now exists (String d s) | reflexivity].
  - destruct (ascii_dec c d) as [->|Hne].
    + rewrite IH.
      split; intros [post H]; exists post; rewrite append_cons in *; congruence.
    + split; [discriminate|].
      intros [post H]; rewrite append_cons in H; congruence.
Qed.

Lemma includes_nil (q : string) :
  includes "" q = if String.prefix q "" then true else false.
Proof. reflexivity. Qed.

Lemma includes_cons (c : ascii) (s q : string) :
  includes (String c s) q
  = if String.prefix q (String c s) then true else includes s q.
Proof. reflexivity. Qed.

Lemma includes_app (s q : string) :
  includes s q = true <-> exists pre post, s = pre +:+ q +:+ post.
Proof.
  induction s as [|c s IH].
  - rewrite includes_nil. destruct (String.prefix q "") eqn:Hp.
    + apply prefix_app in Hp as [post Hp]. split; [|reflexivity].
      intros _. now exists "", post.
    + split; [discriminate|]. intros (pre & post & H).
      destruct pre; [|discriminate]. rewrite append_nil in H.
      enough (String.prefix q "" = true) by congruence.
      apply prefix_app. now exists post.
  - rewrite includes_cons. destruct (String.prefix q (String c s)) eqn:Hp.
    + apply prefix_app in Hp as [post Hp]. split; [|reflexivity].
      intros _. now exists "", post.
    + rewrite IH. split.
      * intros (pre & post & ->). now exists (String c pre), post.
      * intros (pre & post & H). destruct pre as [|d pre].
        -- rewrite append_nil in H.
           enough (String.prefix q (String c s) = true) by congruence.
           apply prefix_app. now exists post.
        -- rewrite append_cons in H. injection H as _ ->. now exists pre, post.
Qed.

Lemma toLowerCase_app (a b : string) :
  toLowerCase (a +:+ b) = toLowerCase a +:+ toLowerCase b.
Proof.
  induction a as [|c a IH]; [reflexivity|].
  rewrite append_cons. simpl. now rewrite IH, append_cons.
Qed.

Lemma toLowerCase_split (s x y : string) :
  toLowerCase s = x +:+ y ->
  exists a b, s = a +:+ b /\ toLowerCase a = x /\ toLowerCase b = y.
Proof.
  revert s. induction x as [|c x IH]; intros s H.
  - now exists "", s.
  - rewrite append_cons in H.
    destruct s as [|d s]; [discriminate|]. simpl in H.
    injection H as Hc Hs. apply IH in Hs as (a & b & -> & Ha & Hb).
    exists (String d a), b. simpl. now rewrite Hc, Ha.
Qed.

Lemma toLowerCase_nonempty (s : string) : s <> "" -> toLowerCase s <> "".
Proof. destruct s; [congruence | discriminate]. Qed.

(** The test of the search filter decides containment up to case. *)
Lemma includes_ignoring_case (s q : string) :
  includes (toLowerCase s) (toLowerCase q) = true <-> contains_ignoring_case s q.
Proof.
  rewrite includes_app. unfold contains_ignoring_case, eq_ignoring_case. split.
  - intros (x & z & H).
    apply toLowerCase_split in H as (pre & rest & -> & Hpre & H).
    apply toLowerCase_split in H as (mid & post & -> & Hmid & Hpost).
    now exists pre, mid, post.
  - intros (pre & mid & post & -> & Hmid).
    exists (toLowerCase pre), (toLowerCase post).
    now rewrite !toLowerCase_app, Hmid.
Qed.

#[local] Instance contains_ignoring_case_dec (s q : string) :
  Decision (contains_ignoring_case s q).
Proof.
  destruct (includes (toLowerCase s) (toLowerCase q)) eqn:H.
  - left. now apply includes_ignoring_case.
  - right. intros Hc. apply includes_ignoring_case in Hc. congruence.
Defined.

Lemma provider_is_event_provider (P : string) (e : json) :
  provider_is P e = true <-> event_provider e = Some P.
Proof.
  unfold provider_is, event_provider.
  destruct (get_field e "provider") as [[]|]; try (split; discriminate).
  destruct (String.eqb_spec s P); split; congruence.
Qed.

Lemma List_filter_filter {A} (f g : A -> bool) (l : list A) :
  List.filter g (List.filter f l) = List.filter (fun x => f x && g x) l.
Proof.
  induction l as [|x l IH]; simpl; [reflexivity|].
  destruct (f x); simpl; [destruct (g x)|]; now rewrite IH.
Qed.

Example filter_example :
  filterUsageEvents {| summary := None; events := Some example_events |} "error" "OpenAI"
  = take 1 example_events.
Proof. vm_compute. reflexivity. Qed.

(** C6.  With a provider filter other than [all] and a non-empty search
    text, the filtered list is the loaded events that pass both tests, the
    provider field being exactly the filter and the serialised event
    containing the text up to letter case, in the order they were
    loaded. *)
Theorem filterUsageEvents_conjunction (usageData : UsageData) (P Q : string) :
  P <> "all" -> Q <> "" ->
  filterUsageEvents usageData Q P
  = filter (fun e => event_provider e = Some P /\
                     contains_ignoring_case (JSON_stringify e) Q)
           (default [] (events usageData)) /\
  (forall e, e ∈ filterUsageEvents usageData Q P <->
             e ∈ default [] (events usageData) /\
             event_provider e = Some P /\
             contains_ignoring_case (JSON_stringify e) Q) /\
  sublist (filterUsageEvents usageData Q P) (default [] (events usageData)).
Proof.
  intros HP HQ.
  assert (Heq : filterUsageEvents usageData Q P
                = filter (fun e => event_provider e = Some P /\
                                   contains_ignoring_case (JSON_stringify e) Q)
                         (default [] (events usageData))).
  { unfold filterUsageEvents.
    destruct (String.eqb_spec P "all") as [|_]; [contradiction|]. simpl negb. cbv iota.
    assert (Hq : str_or (Some Q) "" = Q) by (destruct Q; [congruence | reflexivity]).
    rewrite Hq.
    pose proof (toLowerCase_nonempty Q HQ) as Hne.
    destruct (toLowerCase Q) as [|c q] eqn:Hlow; [congruence|]. rewrite <- Hlow.
    rewrite List_filter_filter.
    apply List_filter_stdpp. intros e.
    rewrite andb_true_iff, provider_is_event_provider, includes_ignoring_case.
    reflexivity. }
  split; [exact Heq|]. rewrite Heq. split.
  - intros e. rewrite list_elem_of_filter. tauto.
  - apply sublist_filter.
Qed.

Lemma filterUsageEvents_conjunction_witness :
  filterUsageEvents {| summary := None; events := Some example_events |} "ERROR" "OpenAI"
  = filter (fun e => event_provider e = Some "OpenAI" /\
                     contains_ignoring_case (JSON_stringify e) "ERROR")
           example_events.
Proof.
  apply (filterUsageEvents_conjunction
           {| summary := None; events := Some example_events |} "OpenAI" "ERROR").
  - discriminate.
  - discriminate.
Defined.

(** ** Dispatchers *)

(** C2 on three failed calls.  An answer with an [error] field is shown
    as an error toast.  A refused call (a non-ok status, a body without
    [ok] or [error]) and a transport failure end with no toast beyond the
    one announcing the attempt; [quickSpawn] reports all three. *)
Theorem spawnAgent_silent_failures :
  toasts_of "error"
    (spawnAgent CONFIG "blog-publisher" "Publish the draft"
       (Json true (Some {| Result.ok := None; Result.error := Some "agent busy" |})))
  = ["Failed to spawn: agent busy"] /\
  spawnAgent CONFIG "blog-publisher" "Publish the draft"
    (Json false (Some {| Result.ok := Some false; Result.error := None |}))
  = [showToast "Spawning Blog Publisher..." "info";
     fetch "/proxy/openclaw/sessions/spawn" (Some "POST")
       (Some (JSON_stringify (JObj [("agentId", JStr "blog-publisher");
                                    ("task", JStr "Publish the draft")])))] /\
  spawnAgent CONFIG "blog-publisher" "Publish the draft" NetworkError
  = [showToast "Spawning Blog Publisher..." "info";
     fetch "/proxy/openclaw/sessions/spawn" (Some "POST")
       (Some (JSON_stringify (JObj [("agentId", JStr "blog-publisher");
                                    ("task", JStr "Publish the draft")])));
     console_error "OpenClaw API error:"] /\
  toasts_of "error" (spawnAgent CONFIG "blog-publisher" "Publish the draft" NetworkError)
  = [] /\
  toasts_of "error" (quickSpawn CONFIG "blog-publisher" NetworkError)
  = ["Failed to spawn: Unknown error"].
Proof. repeat split; vm_compute; reflexivity. Qed.

(** X2.  For a task that is not blank, [spawnAgent] shows an error toast
    only for an answer with a falsy [ok] and a truthy [error]. *)
Lemma spawnAgent_toasts (cfg : Config) (agentId task : string)
  (net : FetchOutcome Result.t) :
  trim task <> "" ->
  toasts_of "error" (spawnAgent cfg agentId task net) =
  match net with
  | Json _ (Some r) =>
      if truthy_flag (Result.ok r) then []
      else match Result.error r with
           | Some (String c e) => ["Failed to spawn: " +:+ String c e]
           | _ => []
           end
  | _ => []
  end.
Proof.
  intros Htask. unfold spawnAgent.
  destruct (trim task) as [|c t]; [congruence|].
  destruct net as [| |status [r|]]; try reflexivity.
  simpl. destruct (truthy_flag (Result.ok r)); [reflexivity|].
  destruct (Result.error r) as [[|c' e]|]; reflexivity.
Qed.

Lemma spawnAgent_toasts_witness :
  toasts_of "error"
    (spawnAgent CONFIG "inbox-checker" "Check the inbox" (NotJson false)) = [].
Proof.
  apply (spawnAgent_toasts CONFIG "inbox-checker" "Check the inbox" (NotJson false)).
  vm_compute. discriminate.
Defined.

(** C9 on the code: the request of [quickSpawn] and the request of
    [triggerCron] carry the bodies the table lists, and go to
    [/proxy/openclaw/api/sessions/spawn] and [/proxy/openclaw/api/cron/run];
    [spawnAgent] posts to the listed [/proxy/openclaw/sessions/spawn]. *)
Theorem quickSpawn_triggerCron_paths :
  (forall (agentId : string) (net : FetchOutcome Result.t),
     requests_of (quickSpawn CONFIG agentId net)
     = [("/proxy/openclaw/api/sessions/spawn", Some "POST",
         Some (JSON_stringify (JObj [("agentId", JStr agentId);
                                     ("task", JStr (quickSpawn_task agentId))])))]) /\
  (forall (jobId : string) (net : FetchOutcome Result.t),
     requests_of (triggerCron CONFIG jobId net)
     = [("/proxy/openclaw/api/cron/run", Some "POST",
         Some (JSON_stringify (JObj [("jobId", JStr jobId)])))]) /\
  "/proxy/openclaw/api/sessions/spawn" <> "/proxy/openclaw/sessions/spawn" /\
  "/proxy/openclaw/api/cron/run" <> "/proxy/openclaw/cron/run" /\
  map (fun r => fst (fst r))
      (requests_of (spawnAgent CONFIG "blog-publisher" "Publish the draft" NetworkError))
  = ["/proxy/openclaw/sessions/spawn"].
Proof.
  split; [|split; [|split; [|split]]].
  - intros agentId net. unfold quickSpawn, fetchOpenClaw.
    destruct net as [| |status [r|]]; try reflexivity.
    simpl. destruct (truthy_str (Result.error r)); reflexivity.
  - intros jobId net. unfold triggerCron, fetchOpenClaw.
    destruct net as [| |status [r|]]; try reflexivity.
    simpl. destruct (truthy_str (Result.error r)); reflexivity.
  - discriminate.
  - discriminate.
  - reflexivity.
Qed.

(** ** JSON parsing: the fuel is enough

    The descent is written with a budget of calls.  A successful parse
    consumes text, so the budget [JSON_parse] grants, twice the length of
    the text, is never the reason for a refusal. *)

Lemma skip_ws_length (s : string) : (String.length (skip_ws s) <= String.length s)%nat.
Proof.
  induction s as [|c s IH]; simpl; [lia|].
  destruct (is_json_ws c); simpl; lia.
Qed.

Lemma parse_digits_length (s : string) (acc : Z) (n : nat) :
  (String.length (snd (parse_digits s acc n)) + snd (fst (parse_digits s acc n))
   = String.length s + n)%nat.
Proof.
  revert acc n. induction s as [|c s IH]; intros acc n; simpl; [lia|].
  destruct (digit_value c); simpl; [rewrite IH; lia | lia].
Qed.

Lemma parse_chars_length (n : nat) : forall s t r,
  (String.length s <= n)%nat ->
  parse_chars s = Some (t, r) -> (String.length r < String.length s)%nat.
Proof.
  induction n as [|n IH]; intros s t r Hn H.
  - destruct s; simpl in *; [discriminate | lia].
  - destruct s as [|c s]; simpl in H; [discriminate|].
    destruct (Ascii.eqb c dquote).
    { injection H as _ <-. simpl. lia. }
    destruct (Ascii.eqb c backslash).
    { destruct s as [|x s1]; [discriminate|].
      destruct (Ascii.eqb x "u").
      - destruct s1 as [|h1 [|h2 [|h3 [|h4 s2]]]]; try discriminate.
        destruct (hex_value h1), (hex_value h2), (hex_value h3), (hex_value h4);
          try discriminate.
        destruct (parse_chars s2) as [[t' r']|] eqn:Hrec; [|discriminate].
        injection H as _ <-. apply IH in Hrec; simpl in *; lia.
      - destruct (unescape x); [|discriminate].
        destruct (parse_chars s1) as [[t' r']|] eqn:Hrec; [|discriminate].
        injection H as _ <-. apply IH in Hrec; simpl in *; lia. }
    destruct (nat_of_ascii c <? 32)%nat; [discriminate|].
    destruct (parse_chars s) as [[t' r']|] eqn:Hrec; [|discriminate].
    injection H as _ <-. apply IH in Hrec; simpl in *; lia.
Qed.

Lemma expect_length (lit s r : string) :
  expect lit s = Some r -> (String.length r <= String.length s)%nat.
Proof.
  revert s. induction lit as [|c lit IH]; intros s H; simpl in H.
  - injection H as <-. lia.
  - destruct s as [|d s]; [discriminate|].
    destruct (Ascii.eqb c d); [|discriminate]. apply IH in H. simpl. lia.
Qed.

Lemma parse_digits_rest (s : string) (acc : Z) (n : nat) (v : Z) (k : nat) (r : string) :
  parse_digits s acc n = (v, k, r) ->
  (String.length r + k = String.length s + n)%nat.
Proof.
  intros H. pose proof (parse_digits_length s acc n) as Hl.
  rewrite H in Hl. exact Hl.
Qed.

Lemma parse_int_length (s : string) (v : Z) (r : string) :
  parse_int s = Some (v, r) -> (String.length r < String.length s)%nat.
Proof.
  unfold parse_int. destruct s as [|c s]; [discriminate|].
  destruct (Ascii.eqb c "0").
  - intros H. injection H as _ <-. simpl. lia.
  - destruct (parse_digits (String c s) 0 0) as [[v' k] r'] eqn:Hd.
    apply parse_digits_rest in Hd.
    destruct k; [discriminate|]. intros H. injection H as _ <-. lia.
Qed.

Lemma parse_frac_length (int : Z) (s : string) (d : Z) (k : nat) (r : string) :
  parse_frac int s = Some (d, k, r) -> (String.length r <= String.length s)%nat.
Proof.
  unfold parse_frac. destruct s as [|c s].
  - intros H. injection H as _ _ <-. lia.
  - destruct (Ascii.eqb c ".").
    + destruct (parse_digits s int 0) as [[v' k'] r'] eqn:Hd.
      apply parse_digits_rest in Hd.
      destruct k'; [discriminate|]. intros H. injection H as _ _ <-. simpl. lia.
    + intros H. injection H as _ _ <-. lia.
Qed.

Lemma parse_exp_length (s : string) (e : Z) (r : string) :
  parse_exp s = Some (e, r) -> (String.length r <= String.length s)%nat.
Proof.
  unfold parse_exp. destruct s as [|c s].
  - intros H. injection H as _ <-. lia.
  - destruct (Ascii.eqb c "e" || Ascii.eqb c "E").
    + destruct (match s with
                | "" => (false, s)
                | String sg r0 =>
                    if Ascii.eqb sg "-" then (true, r0)
                    else if Ascii.eqb sg "+" then (false, r0) else (false, s)
                end) as [neg rest1] eqn:Hsign.
      assert (Hr1 : (String.length rest1 <= String.length s)%nat).
      { destruct s as [|sg r0]; [injection Hsign as _ <-; lia|].
        destruct (Ascii.eqb sg "-"); [injection Hsign as _ <-; simpl; lia|].
        destruct (Ascii.eqb sg "+"); injection Hsign as _ <-; simpl; lia. }
      destruct (parse_digits rest1 0 0) as [[v' k'] r'] eqn:Hd.
      apply parse_digits_rest in Hd.
      destruct k'; [discriminate|]. intros H. injection H as _ <-. simpl. lia.
    + intros H. injection H as _ <-. lia.
Qed.

Lemma parse_number_length (s : string) (j : json) (r : string) :
  parse_number s = Some (j, r) -> (String.length r < String.length s)%nat.
Proof.
  unfold parse_number.
  destruct (match s with
            | "" => (false, s)
            | String c rest => if Ascii.eqb c "-" then (true, rest) else (false, s)
            end) as [neg s1] eqn:Hsign.
  assert (Hs1 : (String.length s1 <= String.length s)%nat).
  { destruct s as [|c rest]; [injection Hsign as _ <-; lia|].
    destruct (Ascii.eqb c "-"); injection Hsign as _ <-; simpl; lia. }
  destruct (parse_int s1) as [[int s2]|] eqn:Hint; [|discriminate].
  apply parse_int_length in Hint.
  destruct (parse_frac int s2) as [[[d k] s3]|] eqn:Hfrac; [|discriminate].
  apply parse_frac_length in Hfrac.
  destruct (parse_exp s3) as [[e s4]|] eqn:Hexp; [|discriminate].
  apply parse_exp_length in Hexp.
  intros H. injection H as _ <-. lia.
Qed.

Ltac parse_step :=
  match goal with
  | H : Some _ = Some _ |- _ => injection H as ?; subst
  | H : None = Some _ |- _ => discriminate H
  | H : context [if ?b then _ else _] |- _ => destruct b eqn:?
  | H : context [match skip_ws ?s with _ => _ end] |- _ =>
      let Hw := fresh "Hws" in
      pose proof (skip_ws_length s) as Hw; destruct (skip_ws s) eqn:?; simpl in Hw
  | H : context [match parse_chars ?s with _ => _ end] |- _ =>
      let Hc := fresh "Hchars" in
      destruct (parse_chars s) as [[? ?]|] eqn:Hc;
      [apply (parse_chars_length _ _ _ _ (Nat.le_refl _)) in Hc|]
  | H : context [match expect ?l ?s with _ => _ end] |- _ =>
      let He := fresh "Hexp" in
      destruct (expect l s) eqn:He; [apply expect_length in He|]
  end.

(** A successful parse consumes at least one character. *)
Lemma parse_consumes (fuel : nat) :
  (forall s v r, parse_value fuel s = Some (v, r) ->
                 (String.length r < String.length s)%nat) /\
  (forall s vs r, parse_elements fuel s = Some (vs, r) ->
                  (String.length r < String.length s)%nat) /\
  (forall s ms r, parse_members fuel s = Some (ms, r) ->
                  (String.length r < String.length s)%nat).
Proof.
  induction fuel as [|fuel (IHv & IHe & IHm)];
    [repeat split; intros; discriminate|].
  repeat split.
  - intros s v r H. destruct s as [|c rest]; cbn [parse_value] in H; [discriminate|].
    repeat parse_step; simpl in *; try lia.
    + destruct (parse_members fuel _) as [[ms r']|] eqn:Hm; [|discriminate].
      apply IHm in Hm. injection H as _ <-. simpl in *. lia.
    + destruct (parse_elements fuel _) as [[vs r']|] eqn:He; [|discriminate].
      apply IHe in He. injection H as _ <-. simpl in *. lia.
    + apply parse_number_length in H. simpl in H. lia.
  - intros s vs r H. cbn [parse_elements] in H.
    pose proof (skip_ws_length s) as Hs.
    destruct (parse_value fuel (skip_ws s)) as [[v rest]|] eqn:Hv; [|discriminate].
    apply IHv in Hv.
    repeat parse_step; simpl in *; try lia.
    destruct (parse_elements fuel _) as [[vs' r']|] eqn:He; [|discriminate].
    apply IHe in He. injection H as _ <-. simpl in *. lia.
  - intros s ms r H. cbn [parse_members] in H.
    repeat parse_step; simpl in *; try lia.
    all: match goal with
         | H : context [parse_value ?f (skip_ws ?y)] |- _ =>
             destruct (parse_value f (skip_ws y)) as [[v rest3]|] eqn:Hv;
             [|discriminate];
             pose proof (skip_ws_length y) as Hs0;
             apply IHv in Hv
         end.
    all: repeat parse_step; simpl in *; try lia.
    all: destruct (parse_members fuel _) as [[ms' r']|] eqn:Hm; [|discriminate];
         apply IHm in Hm; injection H as _ <-; simpl in *; lia.
Qed.

Ltac fuel_step :=
  match goal with
  | |- ?x = ?x => reflexivity
  | |- context [if ?b then _ else _] => destruct b eqn:?
  | |- context [match skip_ws ?s with _ => _ end] =>
      let Hw := fresh "Hws" in
      pose proof (skip_ws_length s) as Hw; destruct (skip_ws s) eqn:?; simpl in Hw
  | |- context [match parse_chars ?s with _ => _ end] =>
      let Hc := fresh "Hchars" in
      destruct (parse_chars s) as [[? ?]|] eqn:Hc;
      [apply (parse_chars_length _ _ _ _ (Nat.le_refl _)) in Hc|]
  end.

(** Past twice the length of the text, more fuel changes nothing. *)
Lemma parse_fuel_enough (n : nat) : forall s, (String.length s <= n)%nat ->
  (forall f f', (2 * n + 1 <= f)%nat -> (2 * n + 1 <= f')%nat ->
                parse_value f s = parse_value f' s) /\
  (forall f f', (2 * n + 2 <= f)%nat -> (2 * n + 2 <= f')%nat ->
                parse_elements f s = parse_elements f' s) /\
  (forall f f', (2 * n + 1 <= f)%nat -> (2 * n + 1 <= f')%nat ->
                parse_members f s = parse_members f' s).
Proof.
  induction n as [|n IH]; intros s Hs.
  - destruct s; [|simpl in Hs; lia].
    repeat split; intros [|f] [|f'] Hf Hf'; try lia; try reflexivity.
    cbn [parse_elements]. simpl skip_ws. now destruct f, f'.
  - assert (Hvalue : forall s, (String.length s <= S n)%nat ->
              forall f f', (2 * S n + 1 <= f)%nat -> (2 * S n + 1 <= f')%nat ->
                           parse_value f s = parse_value f' s).
    { clear s Hs. intros s Hs [|f] [|f'] Hf Hf'; try lia.
      destruct s as [|c rest]; [reflexivity|]. simpl in Hs.
      cbn [parse_value].
      repeat fuel_step.
      - rewrite (proj2 (proj2 (IH (String a s) ltac:(simpl; lia))) f f') by lia.
        reflexivity.
      - rewrite (proj1 (proj2 (IH (String a s) ltac:(simpl; lia))) f f') by lia.
        reflexivity. }
    split; [apply Hvalue; exact Hs|]. split.
    + intros [|f] [|f'] Hf Hf'; try lia. cbn [parse_elements].
      pose proof (skip_ws_length s) as Hws.
      rewrite (Hvalue (skip_ws s) ltac:(lia) f f') by lia.
      destruct (parse_value f' (skip_ws s)) as [[v rest]|] eqn:Hv; [|reflexivity].
      apply (proj1 (parse_consumes f')) in Hv.
      repeat fuel_step.
      rewrite (proj1 (proj2 (IH s0 ltac:(simpl in *; lia))) f f') by lia.
      reflexivity.
    + intros [|f] [|f'] Hf Hf'; try lia. cbn [parse_members].
      repeat fuel_step.
      all: match goal with
           | |- ?L = ?R =>
               match L with
               | context [parse_value ?a (skip_ws ?y)] =>
                   match R with
                   | context [parse_value ?b (skip_ws y)] =>
                       pose proof (skip_ws_length y) as Hy;
                       rewrite (proj1 (IH (skip_ws y) ltac:(simpl in *; lia)) a b) by lia;
                       destruct (parse_value b (skip_ws y)) as [[v rest3]|] eqn:Hv;
                       [apply (proj1 (parse_consumes b)) in Hv | reflexivity]
                   end
               end
           end.
      all: repeat fuel_step.
      all: match goal with
           | |- ?L = ?R =>
               match L with
               | context [parse_members ?a ?y] =>
                   match R with
                   | context [parse_members ?b y] =>
                       rewrite (proj2 (proj2 (IH y ltac:(simpl in *; lia))) a b) by lia
                   end
               end
           end; reflexivity.
Qed.

(** [JSON_parse] does not depend on its fuel: the answer is the one of
    any larger budget. *)
Lemma JSON_parse_fuel (text : string) (fuel : nat) :
  (2 * String.length text + 2 <= fuel)%nat ->
  parse_value fuel (skip_ws text)
  = parse_value (2 * String.length text + 2) (skip_ws text).
Proof.
  intros Hf. pose proof (skip_ws_length text) as Hws.
  apply (proj1 (parse_fuel_enough (String.length text) (skip_ws text) Hws)); lia.
Qed.

(** ** Saving the settings *)

Example parseInt_examples :
  parseInt " 22" = Some 22 /\ parseInt "0x1f" = Some 31 /\ parseInt "7pm" = Some 7 /\
  parseInt "-3" = Some (-3) /\ parseInt "" = None /\ parseInt "hour" = None.
Proof. repeat split. Qed.

Example JSON_parse_examples :
  JSON_parse " " = None /\ JSON_parse "" = None /\
  JSON_parse "{openai: 1}" = None /\ JSON_parse "[1, 2.5, -3e2]" =
    Some (JArr [JNum 1 0; JNum 25 (-1); JNum (-3) 2]) /\
  JSON_parse " {} " = Some (JObj []).
Proof. repeat split. Qed.

(** C8, as stated, fails: a provider box holding one space holds a
    non-empty string that [JSON.parse] rejects, and the save goes to the
    network with an empty provider object. *)
Lemma saveSettings_blank_providers_posts :
  blank_providers_form !! "settings-providers-json" = Some " " /\
  " " <> "" /\
  JSON_parse " " = None /\
  saveSettings CONFIG blank_providers_form
    (Json true (Some {| Result.ok := Some true; Result.error := None |})) true
  = ([fetch "/proxy/dashboard/settings" (Some "POST")
        (Some (JSON_stringify
           (JObj [("settings",
                   JObj [("hashnode_api_key", JStr ""); ("hashnode_url", JStr "");
                         ("publication_id", JStr ""); ("scheduleHour", JNum 22 0);
                         ("notes_path", JStr ""); ("rss_feeds", JArr []);
                         ("providers", JObj [])])])));
      showToast "Settings saved" "success";
      call_refreshAll],
     {| openclawUrl := "/proxy/openclaw"; n8nUrl := "/proxy/n8n";
        refreshInterval := 30000; scheduleHour := 22 |},
     true).
Proof. repeat split; try discriminate; vm_compute; reflexivity. Qed.

(** C8, amended.  When the provider box, trimmed of white space, is not
    empty and is not parseable JSON, the save shows the validation error
    and nothing else: no request is made, the configuration stays as it
    was, and the function returns false. *)
Theorem saveSettings_invalid_providers_aborts
  (cfg : Config) (form : DOM) (net : FetchOutcome Result.t) (refreshed : bool) :
  trim (form_get form "settings-providers-json") <> "" ->
  JSON_parse (trim (form_get form "settings-providers-json")) = None ->
  saveSettings cfg form net refreshed
  = ([showToast "Invalid providers JSON" "error"], cfg, false) /\
  requests_of (fst (fst (saveSettings cfg form net refreshed))) = [].
Proof.
  intros Hne Hparse.
  assert (Hprov : providers_of_form form = None).
  { unfold providers_of_form.
    destruct (trim (form_get form "settings-providers-json")); [congruence | exact Hparse]. }
  unfold saveSettings. rewrite Hprov. split; reflexivity.
Qed.

Lemma saveSettings_invalid_providers_aborts_witness :
  saveSettings CONFIG broken_providers_form NetworkError true
  = ([showToast "Invalid providers JSON" "error"], CONFIG, false) /\
  requests_of (fst (fst (saveSettings CONFIG broken_providers_form NetworkError true))) = [].
Proof.
  apply (saveSettings_invalid_providers_aborts CONFIG broken_providers_form
           NetworkError true).
  - vm_compute. discriminate.
  - vm_compute. reflexivity.
Defined.

(** ** The refresh cycle *)

#[local] Instance Loader_eq_dec : EqDecision Loader.
Proof. solve_decision. Defined.

Section Independent.
Context {A : Type} (cfg : Config) (net : Network).
Variable field : Globals -> A.
Variable owner : Loader.
Variable update : A -> A.
Hypothesis update_idem : forall a, update (update a) = update a.
Hypothesis owner_writes : forall g, field (complete cfg net owner g) = update (field g).
Hypothesis others_keep :
  forall l g, l <> owner -> field (complete cfg net l g) = field g.

(** A field written by one loader ends the cycle with that loader's
    update, whatever the order in which the requests settle. *)
Lemma field_after_cycle (order : list Loader) (g : Globals) :
  field (refreshAll cfg net order g)
  = if bool_decide (owner ∈ order) then update (field g) else field g.
Proof.
  unfold refreshAll. revert g.
  induction order as [|l order IH]; intros g; simpl; [reflexivity|].
  rewrite IH.
  destruct (decide (l = owner)) as [->|Hne].
  - rewrite owner_writes, update_idem.
    rewrite (bool_decide_eq_true_2 (owner ∈ owner :: order)) by left.
    now destruct (bool_decide (owner ∈ order)).
  - rewrite others_keep by exact Hne.
    destruct (decide (owner ∈ order)) as [Hin|Hin].
    + rewrite !bool_decide_eq_true_2; [reflexivity | now right | exact Hin].
    + rewrite !bool_decide_eq_false_2; [reflexivity | | exact Hin].
      intros Hin'. apply elem_of_cons in Hin' as [->|]; tauto.
Qed.

End Independent.

Lemma sessions_after_cycle (cfg : Config) (net : Network) (order : list Loader)
  (g : Globals) :
  LoadSessions ∈ order ->
  sessions (state (refreshAll cfg net order g))
  = default (sessions (state g)) (expected_key body_sessions (net_sessions net)).
Proof.
  intros Hin.
  rewrite (field_after_cycle cfg net (fun g => sessions (state g)) LoadSessions
             (fun old => default old (expected_key body_sessions (net_sessions net)))).
  - now rewrite bool_decide_eq_true_2.
  - intros a. now destruct (expected_key _ _).
  - intros g0. simpl. unfold loadSessions.
    destruct (net_sessions net) as [| |status [[[l|]]|]]; reflexivity.
  - intros l g0 Hl. destruct l; try reflexivity; try congruence; simpl.
    + unfold checkGatewayStatus. destruct (net_health net) as [| |? [?|]]; reflexivity.
    + unfold loadCronJobs.
      destruct (net_cron net) as [| |status [[[j|]]|]]; reflexivity.
    + unfold loadActivity.
      destruct (net_activity net) as [| |status [[[j|]]|]]; reflexivity.
    + unfold loadUsage. destruct (net_usage net); reflexivity.
Qed.

Lemma cronJobs_after_cycle (cfg : Config) (net : Network) (order : list Loader)
  (g : Globals) :
  LoadCronJobs ∈ order ->
  cronJobs (state (refreshAll cfg net order g))
  = default (cronJobs (state g)) (expected_key jobs (net_cron net)).
Proof.
  intros Hin.
  rewrite (field_after_cycle cfg net (fun g => cronJobs (state g)) LoadCronJobs
             (fun old => default old (expected_key jobs (net_cron net)))).
  - now rewrite bool_decide_eq_true_2.
  - intros a. now destruct (expected_key _ _).
  - intros g0. simpl. unfold loadCronJobs.
    destruct (net_cron net) as [| |status [[[l|]]|]]; reflexivity.
  - intros l g0 Hl. destruct l; try reflexivity; try congruence; simpl.
    + unfold checkGatewayStatus. destruct (net_health net) as [| |? [?|]]; reflexivity.
    + unfold loadSessions.
      destruct (net_sessions net) as [| |status [[[j|]]|]]; reflexivity.
    + unfold loadActivity.
      destruct (net_activity net) as [| |status [[[j|]]|]]; reflexivity.
    + unfold loadUsage. destruct (net_usage net); reflexivity.
Qed.

Lemma activity_after_cycle (cfg : Config) (net : Network) (order : list Loader)
  (g : Globals) :
  LoadActivity ∈ order ->
  activity (state (refreshAll cfg net order g))
  = default (activity (state g))
      (synthesize_activity (net_clock net)
         <$> expected_key body_sessions (net_activity net)).
Proof.
  intros Hin.
  rewrite (field_after_cycle cfg net (fun g => activity (state g)) LoadActivity
             (fun old => default old
                (synthesize_activity (net_clock net)
                   <$> expected_key body_sessions (net_activity net)))).
  - now rewrite bool_decide_eq_true_2.
  - intros a. now destruct (expected_key _ _).
  - intros g0. simpl. unfold loadActivity.
    destruct (net_activity net) as [| |status [[[l|]]|]]; reflexivity.
  - intros l g0 Hl. destruct l; try reflexivity; try congruence; simpl.
    + unfold checkGatewayStatus. destruct (net_health net) as [| |? [?|]]; reflexivity.
    + unfold loadSessions.
      destruct (net_sessions net) as [| |status [[[j|]]|]]; reflexivity.
    + unfold loadCronJobs.
      destruct (net_cron net) as [| |status [[[j|]]|]]; reflexivity.
    + unfold loadUsage. destruct (net_usage net); reflexivity.
Qed.

(** The snapshot and the events shown at the end of a cycle. *)
Lemma usage_after_cycle (cfg : Config) (net : Network) (order : list Loader)
  (g : Globals) :
  LoadUsage ∈ order ->
  (usageData (refreshAll cfg net order g), filteredEvents (refreshAll cfg net order g))
  = (usageData (loadUsage (net_usage net) g),
     filteredEvents (loadUsage (net_usage net) g)).
Proof.
  intros Hin.
  rewrite (field_after_cycle cfg net (fun g => (usageData g, filteredEvents g)) LoadUsage
             (fun old => (usageData (loadUsage (net_usage net)
                                       {| state := state g; usageData := old.1;
                                          filteredEvents := old.2 |}),
                          filteredEvents (loadUsage (net_usage net)
                                            {| state := state g; usageData := old.1;
                                               filteredEvents := old.2 |})))).
  - rewrite bool_decide_eq_true_2 by exact Hin. now destruct (net_usage net).
  - intros [u f]. now destruct (net_usage net).
  - intros g0. simpl. now destruct (net_usage net).
  - intros l g0 Hl. destruct l; try reflexivity; congruence.
Qed.

(** C7, as stated, fails for the usage snapshot: in a cycle in which
    every request is answered and the usage body is the empty object, the
    usage fetch fails by a missing key and the sessions fetch succeeds,
    yet the snapshot of the earlier cycle is replaced by the empty
    body. *)
Lemma refreshAll_usage_not_retained :
  fetch_failed usage_without_keys Usage /\
  fetch_succeeded usage_without_keys Sessions /\
  usageData loaded_globals
  = Some {| summary := Some example_summary; events := Some example_events |} /\
  usageData (refreshAll CONFIG usage_without_keys refresh_loaders loaded_globals)
  = Some no_properties /\
  ~ (forall (cfg : Config) (net : Network) (order : list Loader) (g : Globals)
            (failing working : Collection),
        Permutation order refresh_loaders ->
        fetch_failed net failing ->
        fetch_succeeded net working ->
        holds_fetched net working (refreshAll cfg net order g) /\
        retained failing g (refreshAll cfg net order g)).
Proof.
  split; [reflexivity|]. split; [now eexists|]. split; [reflexivity|].
  split; [reflexivity|].
  intros Hclaim.
  destruct (Hclaim CONFIG usage_without_keys refresh_loaders loaded_globals
              Usage Sessions) as [_ Hkept].
  - reflexivity.
  - reflexivity.
  - now eexists.
  - discriminate Hkept.
Qed.

(** C7, amended.  In a refresh cycle, whatever the order in which the
    requests settle: when the fetch of one collection fails (transport
    error or missing key; for the usage snapshot, the request or the
    reading of its body throwing) and that of another succeeds, the field
    of the second holds the data just fetched and the field of the first
    is what it was before the cycle. *)
Theorem refreshAll_fields_independent
  (cfg : Config) (net : Network) (order : list Loader) (g : Globals)
  (failing working : Collection) :
  Permutation order refresh_loaders ->
  fetch_failed net failing ->
  (failing = Usage -> net_usage net = UsageError) ->
  fetch_succeeded net working ->
  holds_fetched net working (refreshAll cfg net order g) /\
  retained failing g (refreshAll cfg net order g).
Proof.
  intros Hperm Hfail Hthrows Hwork.
  assert (Hall : forall l, l ∈ order).
  { intros l. rewrite Hperm. unfold refresh_loaders.
    destruct l; repeat constructor. }
  pose proof (usage_after_cycle cfg net order g (Hall LoadUsage)) as Husage.
  injection Husage as Hdata Hevents.
  split.
  - destruct working; simpl in *.
    + rewrite sessions_after_cycle by apply Hall.
      destruct Hwork as [l ->]. reflexivity.
    + rewrite cronJobs_after_cycle by apply Hall.
      destruct Hwork as [l ->]. reflexivity.
    + destruct Hwork as [l Hl]. exists l. split; [exact Hl|].
      rewrite activity_after_cycle by apply Hall. now rewrite Hl.
    + destruct Hwork as [data Hkeys]. exists data. split; [exact Hkeys|].
      rewrite Hdata, Hevents.
      destruct (net_usage net) as [| | |d]; try discriminate Hkeys.
      simpl in Hkeys. destruct (summary d), (events d); try discriminate Hkeys.
      injection Hkeys as <-. now split.
  - destruct failing; simpl in *.
    + rewrite sessions_after_cycle by apply Hall. now rewrite Hfail.
    + rewrite cronJobs_after_cycle by apply Hall. now rewrite Hfail.
    + rewrite activity_after_cycle by apply Hall. now rewrite Hfail.
    + rewrite Hdata, (Hthrows eq_refl). reflexivity.
Qed.

(** A cycle in which the usage request throws and [/cron] answers. *)
Lemma refreshAll_fields_independent_witness :
  let net := {| net_health := net_health usage_without_keys;
                net_sessions := net_sessions usage_without_keys;
                net_cron := net_cron usage_without_keys;
                net_activity := net_activity usage_without_keys;
                net_usage := UsageError;
                net_clock := net_clock usage_without_keys |} in
  holds_fetched net CronJobs
    (refreshAll CONFIG net
       [LoadUsage; LoadCronJobs; CheckGatewayStatus; LoadActivity; LoadSessions]
       loaded_globals) /\
  retained Usage loaded_globals
    (refreshAll CONFIG net
       [LoadUsage; LoadCronJobs; CheckGatewayStatus; LoadActivity; LoadSessions]
       loaded_globals).
Proof.
  intros net.
  apply (refreshAll_fields_independent CONFIG net
           [LoadUsage; LoadCronJobs; CheckGatewayStatus; LoadActivity; LoadSessions]
           loaded_globals Usage CronJobs).
  - unfold refresh_loaders.
    apply (perm_trans (l' := [LoadCronJobs; LoadUsage; CheckGatewayStatus;
                              LoadActivity; LoadSessions])); [apply perm_swap|].
    apply (perm_trans (l' := [LoadCronJobs; CheckGatewayStatus; LoadUsage;
                              LoadActivity; LoadSessions]));
      [apply perm_skip, perm_swap|].
    apply (perm_trans (l' := [CheckGatewayStatus; LoadCronJobs; LoadUsage;
                              LoadActivity; LoadSessions])); [apply perm_swap|].
    apply perm_skip.
    apply (perm_trans (l' := [LoadCronJobs; LoadActivity; LoadUsage; LoadSessions]));
      [apply perm_skip, perm_swap|].
    apply (perm_trans (l' := [LoadCronJobs; LoadActivity; LoadSessions; LoadUsage]));
      [apply perm_skip, perm_skip, perm_swap|].
    apply (perm_trans (l' := [LoadCronJobs; LoadSessions; LoadActivity; LoadUsage]));
      [apply perm_skip, perm_swap|].
    apply (perm_trans (l' := [LoadSessions; LoadCronJobs; LoadActivity; LoadUsage]));
      [apply perm_swap|].
    reflexivity.
  - reflexivity.
  - reflexivity.
  - simpl. eexists. reflexivity.
Defined.

(** * Further properties of the code *)

(** ** Dispatchers that always report *)

(** X4.  [quickSpawn] makes one request and shows one toast whatever the
    network does; the toast is the success one, followed by a reload of
    the sessions, exactly when the answer is a truthy body with no truthy
    [error]. *)
Theorem quickSpawn_reports_once (cfg : Config) (agentId : string)
  (net : FetchOutcome Result.t) :
  length (requests_of (quickSpawn cfg agentId net)) = 1%nat /\
  length (toasts (quickSpawn cfg agentId net)) = 1%nat /\
  (toasts (quickSpawn cfg agentId net)
   = [("Spawned " +:+ getAgentName agentId, "success")] <->
   exists status r, net = Json status (Some r) /\ truthy_str (Result.error r) = false) /\
  (call_loadSessions ∈ quickSpawn cfg agentId net <->
   exists status r, net = Json status (Some r) /\ truthy_str (Result.error r) = false).
Proof.
  unfold quickSpawn, fetchOpenClaw.
  destruct net as [| |status [r|]]; simpl.
  1-2, 4: (repeat split; try reflexivity;
           try (intros H; discriminate H);
           try (intros (st & r & H & _); discriminate H);
           intros H; repeat (apply elem_of_cons in H as [H|H]; [discriminate H|]);
           inversion H).
  destruct (truthy_str (Result.error r)) eqn:Herr; simpl.
  - repeat split; try reflexivity.
    + intros H. discriminate H.
    + intros (st & r' & H & Hr). injection H as _ <-. congruence.
    + intros H. repeat (apply elem_of_cons in H as [H|H]; [discriminate H|]).
      inversion H.
    + intros (st & r' & H & Hr). injection H as _ <-. congruence.
  - repeat split; try reflexivity.
    + intros _. now exists status, r.
    + intros _. now exists status, r.
    + intros _. right. right. left.
Qed.

(** X5.  [triggerCron] makes one request and shows one toast whatever
    the network does; the toast reads Job triggered exactly when the
    answer is a truthy body with no truthy [error]. *)
Theorem triggerCron_reports_once (cfg : Config) (jobId : string)
  (net : FetchOutcome Result.t) :
  length (requests_of (triggerCron cfg jobId net)) = 1%nat /\
  length (toasts (triggerCron cfg jobId net)) = 1%nat /\
  (toasts (triggerCron cfg jobId net) = [("Job triggered", "success")] <->
   exists status r, net = Json status (Some r) /\ truthy_str (Result.error r) = false).
Proof.
  unfold triggerCron, fetchOpenClaw.
  destruct net as [| |status [r|]]; simpl.
  1-2, 4: (repeat split; try reflexivity;
           try (intros H; discriminate H);
           intros (st & r & H & _); discriminate H).
  destruct (truthy_str (Result.error r)) eqn:Herr; simpl.
  - repeat split; try reflexivity.
    + intros H. discriminate H.
    + intros (st & r' & H & Hr). injection H as _ <-. congruence.
  - repeat split; try reflexivity. intros _. now exists status, r.
Qed.

(** X6.  [toggleWorkflow] posts once, with no body, to the activate or
    the deactivate path of the workflow under [CONFIG.n8nUrl]; it shows
    one toast whatever the network does, and asks for the workflows to be
    reloaded exactly when the answer is a truthy body with no truthy
    [error]. *)
Theorem toggleWorkflow_reports_once (cfg : Config) (workflowId : string)
  (activate : bool) (net : FetchOutcome N8nResult.t) :
  requests_of (fst (toggleWorkflow cfg workflowId activate net))
  = [(n8nUrl cfg +:+ "/workflows/" +:+ workflowId +:+
        (if activate then "/activate" else "/deactivate"),
      Some "POST", None)] /\
  length (toasts (fst (toggleWorkflow cfg workflowId activate net))) = 1%nat /\
  (snd (toggleWorkflow cfg workflowId activate net) = [call_loadN8nWorkflows] <->
   exists status r, net = Json status (Some r) /\
                    truthy_str (N8nResult.error r) = false) /\
  (snd (toggleWorkflow cfg workflowId activate net) = [] <->
   toasts_of "error" (fst (toggleWorkflow cfg workflowId activate net)) <> []).
Proof.
  unfold toggleWorkflow, fetchN8n.
  destruct activate, net as [| |status [r|]]; simpl;
    try destruct (truthy_str (N8nResult.error r)) eqn:Herr; simpl;
    repeat split; try reflexivity; try discriminate; try congruence;
    try (intros (st & r' & H & Hr); try discriminate H;
         injection H as _ <-; congruence);
    try (intros _; now exists status, r).
Qed.

(** X7.  [terminateSession] does nothing when the dialog is declined.
    Once confirmed it posts the session key to
    [/proxy/openclaw/sessions/terminate] and shows one toast whatever the
    network does; the sessions are reloaded and the details reopened
    exactly when the answer is a truthy body with no truthy [error]. *)
Theorem terminateSession_confirmed_reports_once (sessionKey : string)
  (net : FetchOutcome Result.t) :
  terminateSession sessionKey false net = ([], []) /\
  requests_of (fst (terminateSession sessionKey true net))
  = [("/proxy/openclaw/sessions/terminate", Some "POST",
      Some (JSON_stringify (JObj [("sessionKey", JStr sessionKey)])))] /\
  length (toasts (fst (terminateSession sessionKey true net))) = 1%nat /\
  (snd (terminateSession sessionKey true net) = [call_viewAgentDetails] <->
   exists status r, net = Json status (Some r) /\ truthy_str (Result.error r) = false) /\
  (call_loadSessions ∈ fst (terminateSession sessionKey true net) <->
   snd (terminateSession sessionKey true net) = [call_viewAgentDetails]).
Proof.
  unfold terminateSession.
  destruct net as [| |status [r|]]; simpl;
    try destruct (truthy_str (Result.error r)) eqn:Herr; simpl;
    repeat split; try reflexivity; try discriminate; try congruence;
    try (intros (st & r' & H & Hr); try discriminate H;
         injection H as _ <-; congruence);
    try (intros _; now exists status, r);
    try (intros _; right; right; left);
    intros H; repeat (apply elem_of_cons in H as [H|H]; [discriminate H|]);
    inversion H.
Qed.

(** ** The events shown and the provider filter *)

(** X8.  [renderUsageEvents] shows the last hundred of the filtered
    events, the most recent first: all of them when there are at most a
    hundred, and never one of the older ones. *)
Theorem shown_events_most_recent (filteredEvents : list json) :
  shown_events filteredEvents
  = reverse (drop (length filteredEvents - 100) filteredEvents) /\
  length (shown_events filteredEvents) = Nat.min 100 (length filteredEvents) /\
  (forall i e, shown_events filteredEvents !! i = Some e <->
               (i < 100)%nat /\ (i < length filteredEvents)%nat /\
               filteredEvents !! (length filteredEvents - 1 - i)%nat = Some e).
Proof.
  unfold shown_events, slice0. split; [apply take_reverse|]. split.
  - rewrite length_take, length_reverse. reflexivity.
  - intros i e. split.
    + intros H. pose proof (lookup_lt_Some _ _ _ H) as Hi.
      rewrite length_take, length_reverse in Hi.
      rewrite lookup_take_lt in H by lia.
      rewrite reverse_lookup in H by lia.
      repeat split; try lia.
      rewrite <- H. f_equal. lia.
    + intros (Hi & Hl & H).
      rewrite lookup_take_lt by lia.
      rewrite reverse_lookup by lia.
      rewrite <- H. f_equal. lia.
Qed.

Lemma List_filter_sublist {A} (f : A -> bool) (l : list A) :
  sublist (List.filter f l) l.
Proof.
  induction l as [|x l IH]; simpl; [constructor|].
  destruct (f x); now constructor.
Qed.

(** X9.  The two event filters agree: with an empty search box
    [filterUsageEvents] gives what [filterUsage] gives for the same
    provider, which for the provider [all] is every loaded event; a search
    text only narrows that list, keeping the order of loading. *)
Theorem filterUsage_and_search (usageData : UsageData) (search provider : string) :
  filterUsageEvents usageData "" provider = filterUsage usageData provider /\
  filterUsage usageData "all" = default [] (events usageData) /\
  sublist (filterUsageEvents usageData search provider)
          (filterUsage usageData provider) /\
  sublist (filterUsage usageData provider) (default [] (events usageData)).
Proof.
  unfold filterUsageEvents, filterUsage.
  repeat split.
  - simpl. now destruct (String.eqb provider "all").
  - generalize (toLowerCase (str_or (Some search) "")). intros q.
    destruct (String.eqb provider "all"); simpl; destruct q;
      try reflexivity; apply List_filter_sublist.
  - destruct (String.eqb provider "all"); [reflexivity | apply List_filter_sublist].
Qed.

(** Whatever is selected, the filtered events are among the loaded
    ones, in their order. *)
Lemma filterUsageEvents_sublist (data : UsageData) (search provider : string) :
  sublist (filterUsageEvents data search provider) (default [] (events data)).
Proof.
  unfold filterUsageEvents.
  generalize (toLowerCase (str_or (Some search) "")). intros q.
  destruct (String.eqb provider "all"); simpl; destruct q; try reflexivity;
    try apply List_filter_sublist.
  etransitivity; apply List_filter_sublist.
Qed.

(** X3.  [loadUsage] never touches the state store.  A request that
    throws leaves the snapshot and the events shown as they were.  A null
    body sets the snapshot to null but leaves the events shown, since the
    read of its events throws.  Every other body, also [false], [0], the
    empty string and an object without the expected keys, replaces the
    snapshot; the events shown then become all the events of the body,
    none when it has none: what the provider filter gives for [all],
    whatever provider and search text are selected on the page.  Loading
    the same answer twice changes nothing more. *)
Theorem loadUsage_replaces (net : UsageOutcome) (g : Globals) :
  state (loadUsage net g) = state g /\
  (loadUsage net g = g <->
   net = UsageError \/
   (net = UsageNull /\ usageData g = None) \/
   (net = UsageFalsy /\ usageData g = Some no_properties /\ filteredEvents g = []) \/
   (exists data, net = UsageBody data /\ usageData g = Some data /\
                 filteredEvents g = default [] (events data))) /\
  (net = UsageNull ->
   usageData (loadUsage net g) = None /\
   filteredEvents (loadUsage net g) = filteredEvents g) /\
  (net = UsageFalsy ->
   usageData (loadUsage net g) = Some no_properties /\
   filteredEvents (loadUsage net g) = []) /\
  (forall data, net = UsageBody data ->
   usageData (loadUsage net g) = Some data /\
   filteredEvents (loadUsage net g) = filterUsage data "all" /\
   (events data = None -> filteredEvents (loadUsage net g) = []) /\
   forall search provider,
     sublist (filterUsageEvents data search provider) (filteredEvents (loadUsage net g))) /\
  loadUsage net (loadUsage net g) = loadUsage net g.
Proof.
  split; [now destruct net|]. split; [|split; [|split; [|split]]].
  - destruct g as [st u f]. destruct net as [| | |data]; simpl; split.
    + intros _. now left.
    + reflexivity.
    + intros H. right. left. split; [reflexivity|]. now injection H as <-.
    + intros [H|[(_ & ->)|[(H & _)|(d & H & _)]]]; try discriminate H. reflexivity.
    + intros H. right. right. left. split; [reflexivity|]. now injection H as <- <-.
    + intros [H|[(H & _)|[(_ & -> & ->)|(d & H & _)]]]; try discriminate H. reflexivity.
    + intros H. right. right. right. exists data. split; [reflexivity|].
      now injection H as <- <-.
    + intros [H|[(H & _)|[(H & _)|(d & H & -> & ->)]]]; try discriminate H.
      now injection H as ->.
  - now intros ->.
  - now intros ->.
  - intros data ->. simpl. split; [reflexivity|]. split; [reflexivity|].
    split; [now intros ->|].
    intros search provider.
    apply filterUsageEvents_sublist.
  - now destruct net.
Qed.

(** ** The bars of the usage chart *)

Lemma chart_max_fold (summary : Summary) (providers : list string) (acc : Z) :
  let m := fold_left (fun max p => if provider_total summary p >? max
                                   then provider_total summary p else max)
                     providers acc in
  acc <= m /\
  (forall p, p ∈ providers -> provider_total summary p <= m) /\
  (m = acc \/ exists p, p ∈ providers /\ provider_total summary p = m).
Proof.
  revert acc. induction providers as [|q l IH]; intros acc; simpl.
  - split; [lia|]. split; [|now left]. intros p Hp. inversion Hp.
  - destruct (IH (if provider_total summary q >? acc
                  then provider_total summary q else acc)) as (Hge & Hall & Hatt).
    destruct (Z.gtb_spec (provider_total summary q) acc) as [Hgt|Hle].
    + split; [lia|]. split.
      * intros p Hp. apply elem_of_cons in Hp as [->|Hp]; [lia | now apply Hall].
      * right. destruct Hatt as [->|(p & Hp & Heq)].
        -- exists q. split; [left | reflexivity].
        -- exists p. split; [now right | exact Heq].
    + split; [lia|]. split.
      * intros p Hp. apply elem_of_cons in Hp as [->|Hp]; [lia | now apply Hall].
      * destruct Hatt as [->|(p & Hp & Heq)]; [now left|].
        right. exists p. split; [now right | exact Heq].
Qed.

Lemma scaled_height (total : Z) (m : positive) :
  (inject_Z total / inject_Z (Zpos m) * 160 == (total * 160) # m)%Q.
Proof. unfold Qeq, Qdiv, Qmult, Qinv, inject_Z. simpl. lia. Qed.

(** X10.  The scaling maximum of the usage chart is the largest
    provider total, or 1 when no total is larger than 1.  Every bar stands
    for its provider's total and is between 20 and 160 pixels high.  A bar
    has the full 160 exactly when its total is the largest one and at
    least 1, and the floor of 20 exactly when its total is at most an
    eighth of the scaling maximum: when no provider has a request every
    bar, also that of the largest total, is 20 high, and when some
    provider has a request a bar of full height exists. *)
Theorem chart_bars_scaled (summary : Summary) (providers : list string) :
  (1 <= chart_max summary providers /\
   (forall q, q ∈ providers -> provider_total summary q <= chart_max summary providers) /\
   (chart_max summary providers = 1 \/
    exists q, q ∈ providers /\ provider_total summary q = chart_max summary providers)) /\
  (forall p total h, (p, total, h) ∈ chart_bars summary providers ->
     total = provider_total summary p /\
     (20 <= h)%Q /\ (h <= 160)%Q /\
     (total = chart_max summary providers -> (h == 160)%Q) /\
     (8 * total <= chart_max summary providers -> (h == 20)%Q) /\
     ((h == 160)%Q <->
      1 <= total /\ forall q, q ∈ providers -> provider_total summary q <= total) /\
     ((h == 20)%Q <-> 8 * total <= chart_max summary providers)) /\
  ((forall q, q ∈ providers -> provider_total summary q <= 0) ->
   forall p total h, (p, total, h) ∈ chart_bars summary providers -> (h == 20)%Q) /\
  ((exists q, q ∈ providers /\ 1 <= provider_total summary q) ->
   exists p total h, (p, total, h) ∈ chart_bars summary providers /\ (h == 160)%Q).
Proof.
  pose proof (chart_max_fold summary providers 1) as (Hge & Hall & Hatt).
  fold (chart_max summary providers) in Hge, Hall, Hatt.
  assert (Hbar : forall p, p ∈ providers ->
            default 0 (providerTotals summary providers !! p) = provider_total summary p).
  { intros p Hp. now rewrite providerTotals_lookup. }
  assert (Hbars : forall p total h, (p, total, h) ∈ chart_bars summary providers ->
            p ∈ providers /\ total = provider_total summary p /\
            h = Qmax 20 (inject_Z total / inject_Z (chart_max summary providers) * 160)).
  { intros p total h Hin. unfold chart_bars in Hin.
    apply list_elem_of_fmap in Hin as (p' & Heq & Hp').
    injection Heq as -> -> ->. now rewrite (Hbar p' Hp'). }
  assert (Hfloor : forall total x,
            (x == inject_Z total / inject_Z (chart_max summary providers) * 160)%Q ->
            (Qmax 20 x == 20)%Q <-> 8 * total <= chart_max summary providers).
  { intros total x Hx. rewrite Q.max_l_iff, Hx.
    destruct (chart_max summary providers) as [|m|m]; try lia.
    rewrite scaled_height. unfold Qle. simpl. lia. }
  assert (Hfull : forall total x,
            (x == inject_Z total / inject_Z (chart_max summary providers) * 160)%Q ->
            (Qmax 20 x == 160)%Q <-> total = chart_max summary providers).
  { intros total x Hx.
    destruct (chart_max summary providers) as [|m|m]; try lia.
    rewrite scaled_height in Hx.
    destruct (Q.max_spec 20 x) as [[Hlt ->]|[Hle ->]]; rewrite ?Hx.
    - unfold Qeq. simpl. lia.
    - rewrite Hx in Hle. unfold Qle in Hle. simpl in Hle.
      unfold Qeq. simpl. lia. }
  split; [|split; [|split]].
  - split; [lia|]. split; [exact Hall|].
    destruct Hatt as [->|Hatt]; [now left | now right].
  - intros p total h Hin.
    destruct (Hbars p total h Hin) as (Hp & Htotal & ->).
    specialize (Hall p Hp). rewrite <- Htotal in Hall.
    split; [exact Htotal|]. split; [apply Q.le_max_l|].
    assert (Hle : (inject_Z total / inject_Z (chart_max summary providers) * 160
                   <= 160)%Q).
    { destruct (chart_max summary providers) as [|m|m]; try lia.
      rewrite scaled_height. unfold Qle. simpl. lia. }
    split; [apply Q.max_lub; [discriminate | exact Hle]|].
    split; [exact (proj2 (Hfull total _ (Qeq_refl _)))|].
    split; [exact (proj2 (Hfloor total _ (Qeq_refl _)))|].
    split; [|exact (Hfloor total _ (Qeq_refl _))].
    rewrite (Hfull total) by reflexivity. split.
    + intros Heq. split; [lia|]. intros q Hq. rewrite Heq.
      exact (proj1 (proj2 (chart_max_fold summary providers 1)) q Hq).
    + intros (Hone & Hlargest).
      destruct Hatt as [Hmax|(q & Hq & Hmax)]; [lia|].
      specialize (Hlargest q Hq). lia.
  - intros Hnone p total h Hin.
    destruct (Hbars p total h Hin) as (Hp & Htotal & ->).
    apply (proj2 (Hfloor total _ (Qeq_refl _))).
    specialize (Hnone p Hp). lia.
  - intros (q & Hq & Hq1).
    assert (Hex : exists p, p ∈ providers /\
                            provider_total summary p = chart_max summary providers).
    { destruct Hatt as [Hone|Hex]; [|exact Hex].
      exists q. split; [exact Hq|]. specialize (Hall q Hq). lia. }
    destruct Hex as (p & Hp & Heq).
    exists p, (provider_total summary p),
      (Qmax 20 (inject_Z (provider_total summary p)
                / inject_Z (chart_max summary providers) * 160)).
    split.
    + unfold chart_bars. apply list_elem_of_fmap. exists p.
      split; [now rewrite (Hbar p Hp) | exact Hp].
    + apply (proj2 (Hfull (provider_total summary p) _ (Qeq_refl _))). exact Heq.
Qed.

Lemma chart_bars_scaled_witness :
  exists p total h, (p, total, h) ∈ chart_bars example_summary ["Gateway"; "OpenAI"] /\
                    (h == 160)%Q.
Proof.
  apply (proj2 (proj2 (proj2 (chart_bars_scaled example_summary ["Gateway"; "OpenAI"])))).
  exists "OpenAI". split; [right; left | vm_compute; discriminate].
Defined.

(** ** What a sorted and truncated list keeps *)

Section SortedPrefix.
Context {A : Type} (cmp : A -> A -> Z).
Hypothesis cmp_total : forall a b, 0 < cmp a b -> cmp b a <= 0.
Hypothesis cmp_trans : forall a b c, cmp a b <= 0 -> cmp b c <= 0 -> cmp a c <= 0.

Lemma sort_StronglySorted (l : list A) :
  StronglySorted (fun a b => cmp a b <= 0) (sort cmp l).
Proof.
  apply Sorted_StronglySorted.
  - intros a b c. apply cmp_trans.
  - now apply sort_Sorted.
Qed.

Lemma StronglySorted_app_le (R : A -> A -> Prop) (l1 l2 : list A) :
  StronglySorted R (l1 ++ l2) -> forall a b, a ∈ l1 -> b ∈ l2 -> R a b.
Proof.
  induction l1 as [|x l1 IH]; simpl; intros Hs a b Ha Hb; [inversion Ha|].
  apply StronglySorted_inv in Hs as [Hs Hx].
  apply elem_of_cons in Ha as [->|Ha].
  - rewrite Forall_forall in Hx. apply Hx, elem_of_app. now right.
  - now apply IH.
Qed.

(** The first [n] of a sorted list stand before all the others. *)
Lemma sort_take_before_drop (n : nat) (l : list A) (a b : A) :
  a ∈ take n (sort cmp l) -> b ∈ drop n (sort cmp l) -> cmp a b <= 0.
Proof.
  apply (StronglySorted_app_le (fun a b => cmp a b <= 0)).
  rewrite take_drop. apply sort_StronglySorted.
Qed.

(** The head of a sorted list stands before every element. *)
Lemma sort_head_first (l : list A) (h x : A) :
  (forall a, cmp a a <= 0) ->
  sort cmp l !! 0%nat = Some h -> x ∈ l -> cmp h x <= 0.
Proof.
  intros Hrefl Hh Hx.
  assert (Hx' : x ∈ sort cmp l) by now rewrite <- (sort_Permutation cmp l).
  pose proof (sort_StronglySorted l) as Hs.
  destruct (sort cmp l) as [|y s]; [discriminate|].
  injection Hh as ->. apply StronglySorted_inv in Hs as [_ Hall].
  apply elem_of_cons in Hx' as [->|Hx']; [apply Hrefl|].
  rewrite Forall_forall in Hall. now apply Hall.
Qed.

End SortedPrefix.

(** ** The cron panel *)

(** X11.  The cron panel lists every job of the state once, ordered by
    next run, a job with no next run counting as time 0; the overview
    shows the first three of that order, and no job left out of it runs
    before one shown.  When a job has no next run and no time is negative,
    such a job heads both lists. *)
Theorem cron_lists_by_next_run (st : State) :
  let next := fun j => num_or (CronJob.nextRunAtMs j) 0 in
  Permutation (cronJobs st) (sortedJobs st) /\
  (forall i a b, sortedJobs st !! i = Some a -> sortedJobs st !! S i = Some b ->
                 next a <= next b) /\
  upcoming_cron st = take 3 (sortedJobs st) /\
  length (upcoming_cron st) = Nat.min 3 (length (cronJobs st)) /\
  (forall a b, a ∈ upcoming_cron st -> b ∈ drop 3 (sortedJobs st) ->
               next a <= next b) /\
  ((exists j, j ∈ cronJobs st /\ next j = 0) ->
   (forall j, j ∈ cronJobs st -> 0 <= next j) ->
   exists h, sortedJobs st !! 0%nat = Some h /\ upcoming_cron st !! 0%nat = Some h /\
             next h = 0).
Proof.
  intros next.
  assert (Htotal : forall a b : CronJob.t, 0 < by_nextRun a b -> by_nextRun b a <= 0)
    by (unfold by_nextRun; intros; lia).
  assert (Htrans : forall a b c : CronJob.t,
            by_nextRun a b <= 0 -> by_nextRun b c <= 0 -> by_nextRun a c <= 0)
    by (unfold by_nextRun; intros; lia).
  unfold upcoming_cron, sortedJobs, slice0.
  split; [apply sort_Permutation|]. split.
  { intros i a b Ha Hb.
    pose proof (Sorted_adjacent by_nextRun _ i a b
                  (sort_Sorted by_nextRun Htotal (cronJobs st)) Ha Hb) as Hab.
    unfold by_nextRun in Hab. unfold next. lia. }
  split; [reflexivity|]. split.
  { rewrite length_take, <- (Permutation_length (sort_Permutation _ _)). reflexivity. }
  split.
  { intros a b Ha Hb.
    pose proof (sort_take_before_drop by_nextRun Htotal Htrans 3 _ a b Ha Hb) as Hab.
    unfold by_nextRun in Hab. unfold next. lia. }
  intros (j & Hj & Hj0) Hpos.
  destruct (sort by_nextRun (cronJobs st)) as [|h s] eqn:Hsort.
  { rewrite (sort_Permutation by_nextRun (cronJobs st)), Hsort in Hj. inversion Hj. }
  exists h. split; [reflexivity|]. split; [reflexivity|].
  assert (Hh : h ∈ cronJobs st).
  { rewrite (sort_Permutation by_nextRun (cronJobs st)), Hsort. left. }
  pose proof (sort_head_first by_nextRun Htotal Htrans (cronJobs st) h j) as Hhead.
  rewrite Hsort in Hhead.
  specialize (Hhead ltac:(unfold by_nextRun; intros; lia) eq_refl Hj).
  specialize (Hpos h Hh). unfold by_nextRun in Hhead. unfold next in *. lia.
Qed.

(** X12.  The schedule cell of a job never shows its cron expression:
    a job with an expression and no interval reads Every NaNmin, a job
    with a non-zero interval reads that interval in minutes, and One-time
    is shown exactly when the job has neither a non-empty expression nor a
    non-zero interval. *)
Theorem schedule_label_cases (schedule : option Schedule) :
  (forall s c e, schedule = Some s -> expr s = Some (String c e) ->
                 everyMs s = None -> schedule_label schedule = Every None) /\
  (forall s ms, schedule = Some s -> everyMs s = Some ms -> ms <> 0 ->
                schedule_label schedule = Every (Some (inject_Z ms / 60000)%Q)) /\
  (schedule_label schedule = OneTime <->
   truthy_str (schedule ≫= expr) = false /\ truthy_num (schedule ≫= everyMs) = false).
Proof.
  unfold schedule_label. repeat split.
  - intros s c e -> Hexpr Hms. simpl. now rewrite Hexpr, Hms.
  - intros s ms -> Hms Hne. simpl. rewrite Hms. simpl.
    destruct (Z.eqb_spec ms 0); [contradiction|].
    now rewrite orb_true_r.
  - destruct (truthy_str _); [discriminate | reflexivity].
  - destruct (truthy_str _), (truthy_num _); simpl in *; congruence.
  - intros [-> ->]. reflexivity.
Qed.

Lemma schedule_label_cases_witness :
  schedule_label (Some {| expr := Some "0 23 * * *"; everyMs := None |}) = Every None.
Proof.
  apply (proj1 (schedule_label_cases
                  (Some {| expr := Some "0 23 * * *"; everyMs := None |}))
           {| expr := Some "0 23 * * *"; everyMs := None |} "0"%char " 23 * * *");
    reflexivity.
Defined.

(** ** Relative times *)

(** X13.  [formatTime] reads Just now for a date less than a minute old,
    also one in the future; between a minute and an hour it counts whole
    minutes, from 1 to 59; between an hour and a day whole hours, from 1
    to 23; from a day on it leaves the text to the locale. *)
Theorem formatTime_ranges (toLocaleDateString : Z -> string) (now date : Z) :
  (now - date < 60000 -> formatTime toLocaleDateString now date = "Just now") /\
  (60000 <= now - date < 3600000 ->
   exists n, 1 <= n <= 59 /\ n = (now - date) / 60000 /\
             formatTime toLocaleDateString now date = toString n +:+ "m ago") /\
  (3600000 <= now - date < 86400000 ->
   exists n, 1 <= n <= 23 /\ n = (now - date) / 3600000 /\
             formatTime toLocaleDateString now date = toString n +:+ "h ago") /\
  (86400000 <= now - date ->
   formatTime toLocaleDateString now date = toLocaleDateString date).
Proof.
  unfold formatTime. repeat split.
  - intros H. destruct (Z.ltb_spec (now - date) 60000); [reflexivity | lia].
  - intros H. exists ((now - date) / 60000).
    destruct (Z.ltb_spec (now - date) 60000); [lia|].
    destruct (Z.ltb_spec (now - date) 3600000); [|lia].
    repeat split; try reflexivity; Z.div_mod_to_equations; lia.
  - intros H. exists ((now - date) / 3600000).
    destruct (Z.ltb_spec (now - date) 60000); [lia|].
    destruct (Z.ltb_spec (now - date) 3600000); [lia|].
    destruct (Z.ltb_spec (now - date) 86400000); [|lia].
    repeat split; try reflexivity; Z.div_mod_to_equations; lia.
  - intros H.
    destruct (Z.ltb_spec (now - date) 60000); [lia|].
    destruct (Z.ltb_spec (now - date) 3600000); [lia|].
    destruct (Z.ltb_spec (now - date) 86400000); [lia | reflexivity].
Qed.

Lemma formatTime_ranges_witness :
  exists n, 1 <= n <= 59 /\ n = (1700003599999 - 1700000000000) / 60000 /\
            formatTime (fun _ => "14/11/2023") 1700003599999 1700000000000
            = toString n +:+ "m ago".
Proof.
  apply (proj1 (proj2 (formatTime_ranges (fun _ => "14/11/2023")
                         1700003599999 1700000000000))).
  lia.
Defined.

(** ** The details of an agent *)

Lemma fold_max_updatedAt (l : list Session) (acc : Z) :
  let m := fold_left (fun max s => Z.max max (num_or (updatedAt s) 0)) l acc in
  acc <= m /\
  (forall s, s ∈ l -> num_or (updatedAt s) 0 <= m) /\
  (m = acc \/ exists s, s ∈ l /\ num_or (updatedAt s) 0 = m).
Proof.
  revert acc. induction l as [|x l IH]; intros acc; simpl.
  - split; [lia|]. split; [|now left]. intros s Hs. inversion Hs.
  - destruct (IH (Z.max acc (num_or (updatedAt x) 0))) as (Hge & Hall & Hatt).
    split; [lia|]. split.
    + intros s Hs. apply elem_of_cons in Hs as [->|Hs]; [lia | now apply Hall].
    + destruct Hatt as [Hm|(s & Hs & Heq)].
      * destruct (Z.max_spec acc (num_or (updatedAt x) 0)) as [[_ Hmax]|[_ Hmax]].
        -- right. exists x. split; [left | lia].
        -- left. lia.
      * right. exists s. split; [now right | exact Heq].
Qed.

Lemma num_or_zero_Some (a : option Z) (m : Z) :
  num_or a 0 = m -> m <> 0 -> a = Some m.
Proof.
  destruct a as [n|]; simpl; [|congruence].
  destruct (Z.eqb_spec n 0); congruence.
Qed.

(** X14.  The details of an agent list the sessions of the state whose
    agent, read from [agentId] first and from the key otherwise, is that
    agent.  The last activity is never negative, is at least the
    [updatedAt] of each of them, and is 0 (shown as Never) or the
    [updatedAt] of one of them; the status reads Active exactly when the
    agent has a session, whatever its age. *)
Theorem viewAgentDetails_summary (st : State) (agentId : string) :
  let d := viewAgentDetails st agentId in
  sessions_count d = length (details_sessions d) /\
  (forall s, s ∈ details_sessions d <-> s ∈ sessions st /\ sAgent s = agentId) /\
  0 <= lastAct d /\
  (forall s u, s ∈ details_sessions d -> updatedAt s = Some u -> u <= lastAct d) /\
  (lastAct d = 0 \/ exists s, s ∈ details_sessions d /\ updatedAt s = Some (lastAct d)) /\
  (details_status d = "● Active" <-> exists s, s ∈ sessions st /\ sAgent s = agentId) /\
  (details_status d = "○ Idle" <-> forall s, s ∈ sessions st -> sAgent s <> agentId).
Proof.
  intros d.
  assert (Hmem : forall s, s ∈ details_sessions d <-> s ∈ sessions st /\ sAgent s = agentId).
  { intros s. unfold d, viewAgentDetails, viewAgentDetails_sessions. simpl.
    rewrite !list_elem_of_In, filter_In, bool_decide_eq_true. reflexivity. }
  pose proof (fold_max_updatedAt (details_sessions d) 0) as Hfold.
  cbv zeta in Hfold.
  change (fold_left _ (details_sessions d) 0) with (lastAct d) in Hfold.
  destruct Hfold as (Hge & Hall & Hatt).
  split; [reflexivity|]. split; [exact Hmem|]. split; [exact Hge|]. split.
  { intros s u Hs Hu. specialize (Hall s Hs). rewrite Hu in Hall.
    unfold num_or in Hall. destruct (Z.eqb_spec u 0); lia. }
  split.
  { destruct Hatt as [H0|(s & Hs & Heq)]; [now left|].
    destruct (Z.eq_dec (lastAct d) 0) as [H0|Hne]; [now left|].
    right. exists s. split; [exact Hs | now apply num_or_zero_Some]. }
  assert (Hstatus : details_status d
                    = if (0 <? length (details_sessions d))%nat
                      then "● Active" else "○ Idle") by reflexivity.
  rewrite !Hstatus. clear Hstatus.
  destruct (details_sessions d) as [|x l] eqn:Hd; simpl; split.
  - split; [discriminate|]. intros (s & Hs). apply Hmem in Hs. inversion Hs.
  - split; [|reflexivity]. intros _ s Hs Heq.
    assert (Hin : s ∈ @nil Session) by (apply Hmem; now split). inversion Hin.
  - split; [|reflexivity]. intros _. exists x. apply Hmem. left.
  - split; [discriminate|]. intros Hnone.
    assert (Hx : x ∈ x :: l) by left. apply Hmem in Hx as [Hx Heq].
    exfalso. now apply (Hnone x).
Qed.

(** X15.  The card and the details of an agent can disagree: when an
    agent of the registry has sessions but every session filed under it by
    its key is five minutes old or more, its card reads idle while its
    details read Active. *)
Theorem details_active_while_card_idle (st : State) (agent : Agent.t) :
  agent ∈ AGENTS ->
  (exists s, s ∈ sessions st /\ sAgent s = Agent.id agent) ->
  (forall s, s ∈ sessions st -> key_agentId s = Agent.id agent ->
             5 * 60000 <= num_or (ageMs s) 0) ->
  details_status (viewAgentDetails st (Agent.id agent)) = "● Active" /\
  exists card, card ∈ renderAgents st /\ card_agent card = agent /\
               isActive card = false.
Proof.
  intros Hagent (s & Hs & Hid) Hold. split.
  - unfold viewAgentDetails. simpl.
    assert (Hin : s ∈ viewAgentDetails_sessions st (Agent.id agent)).
    { unfold viewAgentDetails_sessions.
      rewrite list_elem_of_In, filter_In, bool_decide_eq_true, <- list_elem_of_In.
      now split. }
    destruct (viewAgentDetails_sessions st (Agent.id agent)); [inversion Hin | reflexivity].
  - unfold renderAgents.
    eexists. split; [apply list_elem_of_fmap; eexists; split; [reflexivity | exact Hagent]|].
    simpl. split; [reflexivity|].
    apply bool_decide_eq_false. rewrite scan_sessions_active.
    intros (s' & Hs' & Hkey & Hage). specialize (Hold s' Hs' Hkey). lia.
Qed.

Lemma details_active_while_card_idle_witness :
  let old_session :=
    {| key := Some "agent:main:main"; agentId := Some "main";
       updatedAt := Some 1700000000000; ageMs := Some 600000;
       totalTokens := Some 10; active := None |} in
  let st := {| sessions := [old_session]; cronJobs := []; n8nWorkflows := [];
               activity := []; gatewayOnline := true; n8nOnline := false |} in
  let main := {| Agent.id := "main"; Agent.name := "Main Agent"; Agent.emoji := "🥳";
                 Agent.model := "claude-opus-4-5-thinking";
                 Agent.workspace := "/home/protik/.openclaw/workspace" |} in
  details_status (viewAgentDetails st (Agent.id main)) = "● Active" /\
  exists card, card ∈ renderAgents st /\ card_agent card = main /\
               isActive card = false.
Proof.
  intros old_session st main.
  apply (details_active_while_card_idle st main).
  - left.
  - exists old_session. split; [left | reflexivity].
  - intros s Hs _. unfold st in Hs. simpl in Hs.
    apply elem_of_cons in Hs as [->|Hs]; [simpl; lia | inversion Hs].
Defined.

(** ** The notes of an agent *)

Lemma note_matches_mentions (name : string) (n : Note.t) :
  note_matches (toLowerCase name) n = true <-> mentions name n.
Proof.
  unfold note_matches, mentions.
  now rewrite orb_true_iff, !includes_ignoring_case.
Qed.

#[local] Instance mentions_dec (name : string) (n : Note.t) : Decision (mentions name n).
Proof. unfold mentions. apply _. Defined.

(** X16.  The notes listed for an agent are the notes whose title or
    excerpt contains the agent's display name (its id when it is not in
    the registry), up to letter case and in the order received; when no
    note does, the first ten notes are listed instead, so the list is
    empty only when there are no notes at all. *)
Theorem loadAgentNotes_list_fallback (agentId : string) (notes : option (list Note.t)) :
  ((exists n, n ∈ default [] notes /\ mentions (getAgentName agentId) n) ->
   loadAgentNotes_list agentId notes
   = filter (mentions (getAgentName agentId)) (default [] notes)) /\
  ((forall n, n ∈ default [] notes -> ~ mentions (getAgentName agentId) n) ->
   loadAgentNotes_list agentId notes = take 10 (default [] notes)) /\
  (loadAgentNotes_list agentId notes = [] <-> default [] notes = []).
Proof.
  unfold loadAgentNotes_list, slice0.
  rewrite (List_filter_stdpp _ (mentions (getAgentName agentId)))
    by (intros n; apply note_matches_mentions).
  set (l := default [] notes).
  split; [|split].
  - intros (n & Hn & Hm).
    assert (Hin : n ∈ filter (mentions (getAgentName agentId)) l)
      by (apply list_elem_of_filter; now split).
    destruct (filter (mentions (getAgentName agentId)) l); [inversion Hin | reflexivity].
  - intros Hnone.
    destruct (filter (mentions (getAgentName agentId)) l) as [|n m] eqn:Hf; [reflexivity|].
    assert (Hin : n ∈ filter (mentions (getAgentName agentId)) l) by (rewrite Hf; left).
    apply list_elem_of_filter in Hin as [Hm Hn]. now destruct (Hnone n).
  - destruct (filter (mentions (getAgentName agentId)) l) as [|n m] eqn:Hf.
    + destruct l; simpl; split; congruence.
    + split; [discriminate|]. intros Hl. rewrite Hl in Hf. discriminate.
Qed.

Lemma loadAgentNotes_list_fallback_witness :
  let notes := [ {| Note.title := Some "Weekly digest"; Note.excerpt := Some "RSS round-up";
                    Note.path := Some "notes/digest.md" |};
                 {| Note.title := Some "Drafts"; Note.excerpt := Some "Queue of the BLOG PUBLISHER";
                    Note.path := Some "notes/drafts.md" |} ] in
  loadAgentNotes_list "blog-publisher" (Some notes)
  = filter (mentions (getAgentName "blog-publisher")) notes.
Proof.
  intros notes.
  apply (proj1 (loadAgentNotes_list_fallback "blog-publisher" (Some notes))).
  eexists. split; [right; left|].
  right. apply includes_ignoring_case. vm_compute. reflexivity.
Defined.

(** ** What [saveSettings] posts and keeps *)

Lemma trimEnd_idem (s : string) : trimEnd (trimEnd s) = trimEnd s.
Proof.
  induction s as [|c s IH]; [reflexivity|]. simpl.
  destruct (trimEnd s) as [|d t] eqn:Ht.
  - destruct (is_js_space c) eqn:Hc; [reflexivity|]. simpl. now rewrite Hc.
  - simpl. simpl in IH. now rewrite IH.
Qed.

Lemma trimEnd_keeps_head (c : ascii) (s : string) :
  is_js_space c = false -> exists t, trimEnd (String c s) = String c t.
Proof.
  intros Hc. simpl. destruct (trimEnd s); [rewrite Hc|]; eauto.
Qed.

Lemma trimStart_head (s : string) :
  trimStart s = "" \/
  exists c t, trimStart s = String c t /\ is_js_space c = false.
Proof.
  induction s as [|c s IH]; [now left|]. simpl.
  destruct (is_js_space c) eqn:Hc; [exact IH|]. right. now exists c, s.
Qed.

Lemma trim_idem (s : string) : trim (trim s) = trim s.
Proof.
  unfold trim. destruct (trimStart_head s) as [->|(c & t & -> & Hc)]; [reflexivity|].
  destruct (trimEnd_keeps_head c t Hc) as [t' Ht]. rewrite Ht.
  simpl trimStart. rewrite Hc, <- Ht. apply trimEnd_idem.
Qed.

Lemma has_char_cons (c d : ascii) (s : string) :
  has_char c (String d s) <-> d = c \/ has_char c s.
Proof. reflexivity. Qed.

Lemma trimStart_has_char (c : ascii) (s : string) :
  has_char c (trimStart s) -> has_char c s.
Proof.
  induction s as [|d s IH]; simpl; [tauto|].
  destruct (is_js_space d); [|tauto].
  intros H. apply has_char_cons. right. now apply IH.
Qed.

Lemma trimEnd_has_char (c : ascii) (s : string) :
  has_char c (trimEnd s) -> has_char c s.
Proof.
  induction s as [|d s IH]; simpl; [tauto|].
  destruct (trimEnd s) as [|e t] eqn:Ht.
  - destruct (is_js_space d); [intros []|].
    intros H. apply has_char_cons in H as [->|[]]. apply has_char_cons. now left.
  - intros H. apply has_char_cons in H as [->|H]; apply has_char_cons;
      [now left | right; now apply IH].
Qed.

Lemma split_no_sep (sep : ascii) (s x : string) :
  x ∈ split sep s -> ~ has_char sep x.
Proof.
  revert x. induction s as [|c s IH]; simpl; intros x Hx.
  - apply list_elem_of_singleton in Hx as ->. intros [].
  - destruct (Ascii.eqb_spec c sep) as [->|Hne].
    + apply elem_of_cons in Hx as [->|Hx]; [intros [] | now apply IH].
    + destruct (split sep s) as [|hd tl] eqn:Hsplit.
      * apply list_elem_of_singleton in Hx as ->.
        intros H. apply has_char_cons in H as [H|[]]. contradiction.
      * apply elem_of_cons in Hx as [->|Hx].
        -- intros H. apply has_char_cons in H as [H|H]; [contradiction|].
           apply (IH hd); [left | exact H].
        -- apply IH. now right.
Qed.


Lemma Config_eta (cfg : Config) :
  {| openclawUrl := openclawUrl cfg; n8nUrl := n8nUrl cfg;
     refreshInterval := refreshInterval cfg; scheduleHour := scheduleHour cfg |} = cfg.
Proof. now destruct cfg. Qed.

(** X18.  [saveSettings] makes at most one request.  It returns true
    exactly when the provider box is acceptable, the server answers with a
    truthy [ok] and the refresh that follows resolves; whenever it returns
    false an error toast was shown.  The configuration is only ever
    touched in its schedule hour, and only after the server answered with
    a truthy [ok]. *)
Theorem saveSettings_outcomes (cfg : Config) (form : DOM)
  (net : FetchOutcome Result.t) (refreshed : bool) :
  let trace := fst (fst (saveSettings cfg form net refreshed)) in
  let cfg' := snd (fst (saveSettings cfg form net refreshed)) in
  let returned := snd (saveSettings cfg form net refreshed) in
  let confirmed := exists status data, net = Json status (Some data) /\
                                       truthy_flag (Result.ok data) = true in
  (length (requests_of trace) <= 1)%nat /\
  (returned = true <->
   is_Some (providers_of_form form) /\ confirmed /\ refreshed = true) /\
  (returned = false -> toasts_of "error" trace <> []) /\
  (openclawUrl cfg' = openclawUrl cfg /\ n8nUrl cfg' = n8nUrl cfg /\
   refreshInterval cfg' = refreshInterval cfg) /\
  (cfg' <> cfg -> is_Some (providers_of_form form) /\ confirmed /\
                  ("Settings saved", "success") ∈ toasts trace).
Proof.
  unfold saveSettings.
  destruct (providers_of_form form) as [providers|]; simpl.
  2: { repeat split; try lia; try discriminate; try congruence;
         try (intros (Hs & _); destruct Hs as [? Hs]; discriminate Hs);
         intros H; exfalso; apply H; reflexivity. }
  destruct net as [| |status [data|]]; simpl;
    try destruct (truthy_flag (Result.ok data)) eqn:Hok; simpl;
    try destruct refreshed; simpl;
    repeat split; try lia; try discriminate; try congruence; try reflexivity;
    try (now eexists);
    try (intros (_ & (st & d & H & Hd) & _); try discriminate H;
         injection H as _ <-; congruence);
    try (intros (_ & _ & H); discriminate H);
    try (eexists _, _; split; reflexivity || eassumption);
    try (intros H; exfalso; apply H; reflexivity);
    left.
Qed.



(** ** The order in which the requests of a cycle settle *)

Lemma complete_comm (cfg : Config) (net : Network) (l1 l2 : Loader) (g : Globals) :
  complete cfg net l1 (complete cfg net l2 g)
  = complete cfg net l2 (complete cfg net l1 g).
Proof.
  destruct g as [st u f].
  destruct l1, l2; try reflexivity; simpl;
    unfold set_state, checkGatewayStatus, loadSessions, loadCronJobs, loadActivity,
           loadUsage, fetchOpenClaw; simpl;
    repeat match goal with
           | |- context [match ?x with _ => _ end] => destruct x; simpl
           end;
    reflexivity.
Qed.

(** X20.  A refresh cycle leaves the same sessions, jobs, feed, gateway
    flag and usage snapshot whatever the order in which its requests
    settle. *)
Theorem refreshAll_order_irrelevant (cfg : Config) (net : Network)
  (order order' : list Loader) (g : Globals) :
  Permutation order order' ->
  refreshAll cfg net order g = refreshAll cfg net order' g.
Proof.
  unfold refreshAll. intros Hperm. revert g.
  induction Hperm as [|l o o' _ IH|l1 l2 o|o1 o2 o3 _ IH1 _ IH2]; intros g; simpl.
  - reflexivity.
  - apply IH.
  - now rewrite complete_comm.
  - now rewrite IH1, IH2.
Qed.

Lemma refreshAll_order_irrelevant_witness :
  refreshAll CONFIG cron_down [LoadSessions; LoadUsage] stale_globals
  = refreshAll CONFIG cron_down [LoadUsage; LoadSessions] stale_globals.
Proof.
  apply (refreshAll_order_irrelevant CONFIG cron_down
           [LoadSessions; LoadUsage] [LoadUsage; LoadSessions] stale_globals).
  apply perm_swap.
Defined.

(** ** What the feed keeps *)

(** X21.  The activity feed keeps the most recent entries: every entry
    comes from a fetched session, and the entries synthesised but left out
    of the feed are none of them more recent than an entry kept. *)
Theorem activity_feed_keeps_most_recent (clock : nat -> Z) (fetched : list Session) :
  (forall a, a ∈ synthesize_activity clock fetched ->
     exists i s, fetched !! i = Some s /\ a = activity_of_session clock i s) /\
  exists dropped,
    Permutation (imap (activity_of_session clock) fetched)
                (synthesize_activity clock fetched ++ dropped) /\
    length dropped = (length fetched - 20)%nat /\
    forall a b, a ∈ synthesize_activity clock fetched -> b ∈ dropped ->
                timestamp b <= timestamp a.
Proof.
  unfold synthesize_activity, slice0.
  set (all := imap (activity_of_session clock) fetched).
  set (cmp := fun a b : ActivityItem => timestamp b - timestamp a).
  assert (Htotal : forall a b, 0 < cmp a b -> cmp b a <= 0) by (unfold cmp; intros; lia).
  assert (Htrans : forall a b c, cmp a b <= 0 -> cmp b c <= 0 -> cmp a c <= 0)
    by (unfold cmp; intros; lia).
  split.
  - intros a Ha. apply elem_of_take in Ha as (j & Hj & _).
    assert (Ha : a ∈ sort cmp all) by (apply list_elem_of_lookup; now exists j).
    rewrite <- (sort_Permutation cmp all) in Ha.
    unfold all in Ha. apply list_elem_of_lookup in Ha as [i Hi].
    rewrite list_lookup_imap in Hi.
    destruct (fetched !! i) as [s|] eqn:Hs; [|discriminate].
    injection Hi as <-. now exists i, s.
  - exists (drop 20 (sort cmp all)). split; [|split].
    + rewrite take_drop. apply sort_Permutation.
    + rewrite length_drop, <- (Permutation_length (sort_Permutation cmp all)).
      unfold all. now rewrite length_imap.
    + intros a b Ha Hb.
      pose proof (sort_take_before_drop cmp Htotal Htrans 20 all a b Ha Hb) as Hab.
      unfold cmp in Hab. lia.
Qed.

(** ** Ties in a sorted list *)

Section Stable.
Context {A : Type} (cmp : A -> A -> Z) (P : A -> Prop) `{forall x, Decision (P x)}.
Hypothesis tie : forall x y, P x -> P y -> cmp x y <= 0.

Lemma sort_insert_filter (x : A) (l : list A) :
  filter P (sort_insert cmp x l) = filter P (x :: l).
Proof.
  induction l as [|y l IH]; simpl; [reflexivity|].
  destruct (Z.leb_spec (cmp x y) 0) as [Hle|Hgt]; [reflexivity|].
  rewrite filter_cons, IH, !filter_cons.
  destruct (decide (P y)) as [Hy|Hy]; destruct (decide (P x)) as [Hx|Hx];
    try reflexivity.
  specialize (tie x y Hx Hy). lia.
Qed.

(** Elements that tie keep the order they had before the sort. *)
Lemma sort_filter (l : list A) : filter P (sort cmp l) = filter P l.
Proof.
  induction l as [|x l IH]; simpl; [reflexivity|].
  now rewrite sort_insert_filter, !filter_cons, IH.
Qed.

End Stable.

(** X22.  Sorting keeps ties in place: the jobs of the cron panel with
    the same next run stand in the order the state holds them, and as long
    as no more than twenty sessions are fetched the entries of the feed
    with the same timestamp stand in the order the sessions were
    fetched. *)
Theorem ties_keep_their_order (st : State) (clock : nat -> Z) (fetched : list Session)
  (t : Z) :
  filter (fun j => num_or (CronJob.nextRunAtMs j) 0 = t) (sortedJobs st)
  = filter (fun j => num_or (CronJob.nextRunAtMs j) 0 = t) (cronJobs st) /\
  ((length fetched <= 20)%nat ->
   filter (fun a => timestamp a = t) (synthesize_activity clock fetched)
   = filter (fun a => timestamp a = t) (imap (activity_of_session clock) fetched)).
Proof.
  split.
  - unfold sortedJobs. apply sort_filter.
    intros x y Hx Hy. unfold by_nextRun. lia.
  - intros Hlen. unfold synthesize_activity, slice0.
    rewrite take_ge.
    + apply sort_filter. intros x y Hx Hy. lia.
    + rewrite <- (Permutation_length (sort_Permutation _ _)), length_imap. exact Hlen.
Qed.

Lemma ties_keep_their_order_witness :
  filter (fun a => timestamp a = 1700000000000)
         (synthesize_activity (fun _ => 0) tied_sessions)
  = filter (fun a => timestamp a = 1700000000000)
           (imap (activity_of_session (fun _ => 0)) tied_sessions).
Proof.
  apply (proj2 (ties_keep_their_order
                  {| sessions := []; cronJobs := []; n8nWorkflows := []; activity := [];
                     gatewayOnline := false; n8nOnline := false |}
                  (fun _ => 0) tied_sessions 1700000000000)).
  simpl. lia.
Defined.

(** ** The gateway flag *)

(** X23.  After a refresh cycle the gateway is marked online exactly
    when the health request brought a truthy body whose [ok] is true or
    which has no truthy [error], whatever became of the other requests; a
    failed request, a body that is not JSON and a null body mark it
    offline. *)
Theorem gateway_flag_after_cycle (cfg : Config) (net : Network)
  (order : list Loader) (g : Globals) :
  CheckGatewayStatus ∈ order ->
  (gatewayOnline (state (refreshAll cfg net order g)) = true <->
   exists status data, net_health net = Json status (Some data) /\
     (Result.ok data = Some true \/ truthy_str (Result.error data) = false)).
Proof.
  intros Hin.
  assert (Hflag : gatewayOnline (state (refreshAll cfg net order g))
                  = match net_health net with
                    | Json _ (Some data) =>
                        match Result.ok data with
                        | Some true => true
                        | _ => negb (truthy_str (Result.error data))
                        end
                    | _ => false
                    end).
  { rewrite (field_after_cycle cfg net (fun g => gatewayOnline (state g))
               CheckGatewayStatus
               (fun _ => match net_health net with
                         | Json _ (Some data) =>
                             match Result.ok data with
                             | Some true => true
                             | _ => negb (truthy_str (Result.error data))
                             end
                         | _ => false
                         end)).
    - now rewrite bool_decide_eq_true_2 by exact Hin.
    - reflexivity.
    - intros g0. simpl. unfold checkGatewayStatus.
      destruct (net_health net) as [| |status [data|]]; reflexivity.
    - intros l g0 Hl. destruct l; try reflexivity; try congruence; simpl.
      + unfold loadSessions.
        destruct (net_sessions net) as [| |status [[[j|]]|]]; reflexivity.
      + unfold loadCronJobs.
        destruct (net_cron net) as [| |status [[[j|]]|]]; reflexivity.
      + unfold loadActivity.
        destruct (net_activity net) as [| |status [[[j|]]|]]; reflexivity.
      + unfold loadUsage. destruct (net_usage net); reflexivity. }
  rewrite Hflag.
  destruct (net_health net) as [| |status [data|]].
  1,2,4: split; [discriminate | intros (s & d & H & _); discriminate H].
  split.
  - intros H. exists status, data. split; [reflexivity|].
    destruct (Result.ok data) as [[|]|]; [now left | |];
      right; now apply negb_true_iff.
  - intros (s & d & H & Hd). injection H as _ <-.
    destruct Hd as [-> | ->]; [reflexivity|].
    now destruct (Result.ok data) as [[|]|].
Qed.

Lemma gateway_flag_after_cycle_witness :
  gatewayOnline (state (refreshAll CONFIG cron_down refresh_loaders stale_globals)) = true <->
  exists status data, net_health cron_down = Json status (Some data) /\
    (Result.ok data = Some true \/ truthy_str (Result.error data) = false).
Proof.
  apply (gateway_flag_after_cycle CONFIG cron_down refresh_loaders stale_globals).
  left.
Defined.

(** ** The spawn dialog *)

(** X24.  [spawnAgent] makes no request for a task that is blank after
    trimming and only asks for one; for any other task it makes one POST
    to the spawn endpoint whose body carries the task as typed, not
    trimmed, and it hides the dialog and schedules the reload of the
    sessions after two seconds exactly when the answer has a truthy
    [ok]. *)
Theorem spawnAgent_request_and_dialog (cfg : Config) (agentId task : string)
  (net : FetchOutcome Result.t) :
  (trim task = "" ->
   spawnAgent cfg agentId task net = [showToast "Please enter a task" "error"]) /\
  (trim task <> "" ->
   requests_of (spawnAgent cfg agentId task net)
   = [(openclawUrl cfg +:+ "/sessions/spawn", Some "POST",
       Some (JSON_stringify (JObj [("agentId", JStr agentId); ("task", JStr task)])))] /\
   (hideSpawnModal ∈ spawnAgent cfg agentId task net <->
    exists status r, net = Json status (Some r) /\ truthy_flag (Result.ok r) = true) /\
   (setTimeout_loadSessions 2000 ∈ spawnAgent cfg agentId task net <->
    hideSpawnModal ∈ spawnAgent cfg agentId task net) /\
   (forall delay, setTimeout_loadSessions delay ∈ spawnAgent cfg agentId task net ->
                  delay = 2000)).
Proof.
  unfold spawnAgent. split.
  - intros ->. reflexivity.
  - intros Hne. destruct (trim task) as [|c t]; [contradiction|].
    unfold fetchOpenClaw.
    destruct net as [| |status [r|]]; simpl.
    1-2, 4: (repeat split; try reflexivity;
             try (intros (st & r & H & _); discriminate H);
             try (match goal with |- forall _ : Z, _ => intros delay end);
             intros H; repeat (apply elem_of_cons in H as [H|H]; [discriminate H|]);
             inversion H).
    destruct (truthy_flag (Result.ok r)) eqn:Hok; simpl.
    + repeat split; try reflexivity.
      * intros _. now exists status, r.
      * intros _. do 3 right. left.
      * intros _. do 3 right. left.
      * intros _. do 4 right. left.
      * intros delay H. repeat (apply elem_of_cons in H as [H|H]; [try discriminate H|]).
        -- now injection H as ->.
        -- inversion H.
    + destruct (truthy_str (Result.error r)); simpl;
        (repeat split; try reflexivity;
         try (intros (st & r' & H & Hr); injection H as _ <-; congruence);
         try (match goal with |- forall _ : Z, _ => intros delay end);
         intros H; repeat (apply elem_of_cons in H as [H|H]; [discriminate H|]);
         inversion H).
Qed.

(** ** The agent a session is counted for *)

Lemma split_without_sep (sep : ascii) (s : string) :
  ~ has_char sep s -> split sep s = [s].
Proof.
  induction s as [|c s IH]; simpl; intros Hs; [reflexivity|].
  destruct (Ascii.eqb_spec c sep) as [->|Hne].
  - exfalso. apply Hs. apply has_char_cons. now left.
  - rewrite IH; [reflexivity|].
    intros H. apply Hs. apply has_char_cons. now right.
Qed.

(** X25.  The agent [renderAgents] counts a session for is never the empty
    string and never contains a colon; it is [main] for a session
    without a key and for a key without a colon.  The agent
    [viewAgentDetails] counts it for is never empty either, and is the
    same one whenever the session has no [agentId] or an empty one. *)
Theorem key_agentId_fallback (s : Session) :
  key_agentId s <> "" /\
  ~ has_char ":" (key_agentId s) /\
  (key s = None -> key_agentId s = "main") /\
  (forall k, key s = Some k -> ~ has_char ":" k -> key_agentId s = "main") /\
  sAgent s <> "" /\
  (str_or (agentId s) "" = "" -> sAgent s = key_agentId s).
Proof.
  assert (Hmain : ~ has_char ":" "main").
  { intros H. repeat (apply has_char_cons in H as [H|H]; [discriminate H|]).
    destruct H. }
  assert (Hne : key_agentId s <> "").
  { unfold key_agentId. destruct (key s) as [k|]; simpl; [|discriminate].
    destruct (split ":" k !! 1%nat) as [[|c x]|]; simpl; discriminate. }
  split; [exact Hne|]. split; [|split; [|split; [|split]]].
  - unfold key_agentId. destruct (key s) as [k|]; simpl; [|exact Hmain].
    destruct (split ":" k !! 1%nat) as [[|c x]|] eqn:Hx; simpl; try exact Hmain.
    apply (split_no_sep ":" k). apply list_elem_of_lookup. now exists 1%nat.
  - unfold key_agentId. now intros ->.
  - unfold key_agentId. intros k -> Hk. simpl.
    now rewrite split_without_sep.
  - unfold sAgent. destruct (agentId s) as [[|c a]|]; simpl; try exact Hne.
    discriminate.
  - unfold sAgent. destruct (agentId s) as [[|c a]|]; simpl; try reflexivity.
    discriminate.
Qed.
